(** * cryodrgn [models.py]: index sets, decoding and translation

    A shallow embedding of the parts of [src/lib-python/models.py] that the
    specification speaks about: the pixel index arrays built by
    [FTSliceDecoder.__init__], [FTSliceDecoder.decode] / [forward] /
    [translate], [HetOnlyVAE.__init__] / [cat_z] and
    [SO3reparameterize.sampleSO3].

    Conventions.
    - Python exceptions are modelled by the [result] type: [Raise e] is an
      exception escaping the call.
    - Image sizes and flattened pixel indices are natural numbers.
    - Tensor entries are kept abstract through the [Scalar] class (negation,
      multiplication, the test [x > 0.0]); the integers are one instance and
      make every definition executable.  [translate] needs [cos], [sin] and
      [pi] and is modelled over the real numbers. *)

From Stdlib Require Import String.
From Stdlib Require Import List Arith Lia Bool ZArith FinFun.
From Stdlib Require Import Reals Lra.
Import ListNotations.

Set Implicit Arguments.

(** * The embedding *)

(* ================================================================= *)
(** ** Exceptions *)

Inductive exn : Type :=
| AssertionError (msg : string)
| RuntimeError (msg : string)
| IndexError
| ZeroDivisionError.

Inductive result (A : Type) : Type :=
| Ok (a : A)
| Raise (e : exn).

Arguments Ok {A} a.
Arguments Raise {A} e.

Definition rbind {A B} (r : result A) (k : A -> result B) : result B :=
  match r with
  | Ok a => k a
  | Raise e => Raise e
  end.

Notation "x <- c ;; k" := (rbind c (fun x => k))
  (at level 61, c at next level, right associativity).

(** [assert cond, msg] *)
Definition assert (cond : bool) (msg : string) : result unit :=
  if cond then Ok tt else Raise (AssertionError msg).

Fixpoint mapM {A B} (f : A -> result B) (l : list A) : result (list B) :=
  match l with
  | [] => Ok []
  | a :: l' => b <- f a ;; bs <- mapM f l' ;; Ok (b :: bs)
  end.

(* ================================================================= *)
(** ** numpy helpers used by the constructor *)

Module Np.

(** [np.arange(start, stop)] *)
Definition arange (start stop : nat) : list nat := seq start (stop - start).

(** [np.arange(start, stop, step)] for non-negative integers; a zero step
    raises [ZeroDivisionError] (the length is computed by a division). *)
Definition arange_step (start stop step : nat) : result (list nat) :=
  if step =? 0 then Raise ZeroDivisionError
  else Ok (map (fun k => start + k * step)
               (seq 0 ((stop - start + (step - 1)) / step))).

(** [i, j = np.meshgrid(cols, rows); (j*D+i).ravel()]: one row of the grid
    after the other, the column index running fastest. *)
Definition meshgrid_ravel (D : nat) (cols rows : list nat) : list nat :=
  flat_map (fun j => map (fun i => j * D + i) cols) rows.

(** [a[:-n]]; note that [a[:-0]] is [a[:0]], the empty array. *)
Definition drop_last {A} (n : nat) (a : list A) : list A :=
  if n =? 0 then [] else firstn (length a - n) a.

(** [a[n:]] *)
Definition drop_first {A} (n : nat) (a : list A) : list A := skipn n a.

End Np.

(* ================================================================= *)
(** ** The layers of the networks, as the constructors assemble them *)

Inductive layer : Type :=
| Linear (nin nout : nat)
| ResidLinear (nin nout : nat)
| Activation.

(** [ResidLinearMLP.__init__] *)
Definition ResidLinearMLP (in_dim nlayers hidden_dim out_dim : nat) : list layer :=
  [ (if in_dim =? hidden_dim then ResidLinear in_dim hidden_dim
     else Linear in_dim hidden_dim); Activation ]
  ++ concat (repeat [ResidLinear hidden_dim hidden_dim; Activation] nlayers)
  ++ [ if out_dim =? hidden_dim then ResidLinear hidden_dim out_dim
       else Linear hidden_dim out_dim ].

(** [MLP.__init__] *)
Definition MLP (in_dim nlayers hidden_dim out_dim : nat) : list layer :=
  [ Linear in_dim hidden_dim; Activation ]
  ++ concat (repeat [Linear hidden_dim hidden_dim; Activation] nlayers)
  ++ [ Linear hidden_dim out_dim ].

(* ================================================================= *)
(** ** [FTSliceDecoder.__init__] *)

Record FTSliceDecoder : Type := mkFTSliceDecoder {
  decoder : list layer;
  center : nat;
  extra : list nat;
  all_eval : list nat;
  top : list nat;
  bottom_rev : list nat;
  D_ : nat;
  D2_ : nat
}.

Definition FTSliceDecoder_init (in_dim D nlayers hidden_dim : nat)
  : result FTSliceDecoder :=
  let decoder := ResidLinearMLP in_dim nlayers hidden_dim 2 in
  let D2 := D / 2 in
  let center := D2 * D + D2 in
  extra <- Np.arange_step ((D2 + 1) * D) (D ^ 2) D ;;
  let all_eval := Np.arange 0 (center + 1) ++ extra in
  let top :=
    Np.drop_last D2
      (Np.meshgrid_ravel D (Np.arange 1 D) (Np.arange 1 (D2 + 1))) in
  let bottom_rev :=
    rev (Np.drop_first D2
           (Np.meshgrid_ravel D (Np.arange 1 D) (Np.arange D2 D))) in
  Ok (mkFTSliceDecoder decoder center extra all_eval top bottom_rev D D2).

(* ================================================================= *)
(** ** Tensor entries *)

(** What the code asks of a tensor entry.  The laws hold for IEEE floats
    (multiplying by [1.] or [-1.] is exact, and a positive number and its
    negation differ) and for exact arithmetic alike. *)
Class Scalar (F : Type) : Type := {
  szero : F;
  sone : F;
  sadd : F -> F -> F;
  smul : F -> F -> F;
  sopp : F -> F;                       (* [-x] *)
  sgtz : F -> bool;                    (* [x > 0.0] *)
  smul_one : forall x, smul x sone = x;
  smul_minus_one : forall x, smul x (sopp sone) = sopp x;
  sgtz_opp : forall x, sgtz x = true -> sgtz (sopp x) = false;
  sopp_moves : forall x, sgtz x = true -> sopp x <> x
}.

(* ================================================================= *)
(** ** List helpers for indexing *)

(** [a[..., idx, :]] on one image (advanced indexing): the selected entries,
    as a new array; an index past the end raises. *)
Definition gather {A} (idx : list nat) (a : list A) : result (list A) :=
  mapM (fun i => match nth_error a i with
                 | Some x => Ok x
                 | None => Raise IndexError
                 end) idx.

Fixpoint update_nth {A} (i : nat) (x : A) (l : list A) : list A :=
  match l, i with
  | [], _ => []
  | _ :: l', 0 => x :: l'
  | y :: l', S i' => y :: update_nth i' x l'
  end.

(** [a[..., idx, :] = vals] on one image: entry [idx[k]] receives
    [vals[k]], one after the other. *)
Fixpoint scatter {A} (idx : list nat) (vals : list A) (a : list (option A))
  : result (list (option A)) :=
  match idx, vals with
  | [], [] => Ok a
  | i :: idx', v :: vals' =>
      if i <? length a then scatter idx' vals' (update_nth i (Some v) a)
      else Raise IndexError
  | _, _ => Raise (RuntimeError "shape mismatch")
  end.

(** The same operation on each image of a batch. *)
Fixpoint zipM {A B C} (g : A -> B -> result C) (la : list A) (lb : list B)
  : result (list C) :=
  match la, lb with
  | a :: la', b :: lb' => c <- g a b ;; cs <- zipM g la' lb' ;; Ok (c :: cs)
  | [], [] => Ok []
  | _, _ => Raise (RuntimeError "shape mismatch")
  end.

(* ================================================================= *)
(** ** [FTSliceDecoder.decode] and [FTSliceDecoder.forward] *)

Section Decoder.

Context {F : Type} {SF : Scalar F}.

(** A lattice tensor has shape [... x N x (3+k)]; the leading axes are
    flattened into one batch axis. *)
Definition point : Type := list F.
Definition lattice : Type := list (list point).

(** [(real, imag)] *)
Definition pixel : Type := (F * F)%type.

(** Tensors are objects shared by reference; the store holds the lattice
    buffers that [decode] writes to. *)
Definition loc : Type := nat.
Definition store : Type := list lattice.

Definition M (A : Type) : Type := store -> result (A * store).

Definition load (l : loc) : M lattice :=
  fun s => match nth_error s l with
           | Some t => Ok (t, s)
           | None => Raise (RuntimeError "no such tensor")
           end.

Definition write (l : loc) (t : lattice) : M unit :=
  fun s => if l <? length s then Ok (tt, update_nth l t s)
           else Raise (RuntimeError "no such tensor").

Definition alloc (t : lattice) : M loc :=
  fun s => Ok (length s, s ++ [t]).

Definition mret {A} (a : A) : M A := fun s => Ok (a, s).

Definition mbind {A B} (m : M A) (k : A -> M B) : M B :=
  fun s => match m s with
           | Ok (a, s') => k a s'
           | Raise e => Raise e
           end.

Definition lift {A} (r : result A) : M A :=
  fun s => match r with Ok a => Ok (a, s) | Raise e => Raise e end.

Notation "x <~ c ;; k" := (mbind c (fun x => k))
  (at level 61, c at next level, right associativity).

(** [self.decoder]: the multilayer perceptron acts on the last axis, one
    point at a time. *)
Variable f : point -> pixel.

(** [lattice[...,2] > 0.0] at one point *)
Definition z_positive (p : point) : result bool :=
  match nth_error p 2 with
  | Some z => Ok (sgtz z)
  | None => Raise IndexError
  end.

(** [-lattice[...,0:3]] at one point *)
Definition negate_xyz (p : point) : point :=
  map sopp (firstn 3 p) ++ skipn 3 p.

(** [t[w] = g(t[w])] for a mask [w] over the points. *)
Definition where_ {A} (w : list (list bool)) (g : A -> A) (t : list (list A))
  : list (list A) :=
  map (fun wr : list bool * list A =>
         map (fun wx : bool * A => if fst wx then g (snd wx) else snd wx)
             (combine (fst wr) (snd wr)))
      (combine w t).

Definition decode (lat : loc) : M (list (list pixel)) :=
  t <~ load lat ;;
  w <~ lift (mapM (mapM z_positive) t) ;;
  _ <~ write lat (where_ w negate_xyz t) ;;
  t' <~ load lat ;;
  let result := map (map f) t' in
  mret (where_ w (fun px => (fst px, smul (snd px) (sopp sone))) result).

(** [torch.empty]: entries that were never written are [None]. *)
Definition image : Type := list (list (option pixel)).

Variable dec : FTSliceDecoder.

Definition forward (lat : loc) : M image :=
  t <~ load lat ;;
  let image0 := map (fun pts => repeat None (length pts)) t in
  sub <~ lift (mapM (gather (all_eval dec)) t) ;;
  tmp <~ alloc sub ;;
  top_half <~ decode tmp ;;
  image1 <~ lift (zipM (scatter (all_eval dec)) top_half image0) ;;
  mirrored <~ lift (mapM (fun th : list pixel =>
                 vals <- gather (top dec) th ;;
                 Ok (map (fun px => (smul (fst px) sone,
                                     smul (snd px) (sopp sone))) vals))
               top_half) ;;
  image2 <~ lift (zipM (scatter (bottom_rev dec)) mirrored image1) ;;
  mret image2.

End Decoder.

(* ================================================================= *)
(** ** [FTSliceDecoder.translate] *)

(** Two axes that meet in an elementwise operation: sizes must agree, or
    one of them is 1 and is repeated (broadcasting). *)
Definition broadcast {A B} (la : list A) (lb : list B) : result (list (A * B)) :=
  if length la =? length lb then Ok (combine la lb)
  else match la, lb with
       | [a], _ => Ok (map (fun b => (a, b)) lb)
       | _, [b] => Ok (map (fun a => (a, b)) la)
       | _, _ => Raise (RuntimeError "tensor sizes must match")
       end.

Module Translate.

Local Open Scope R_scope.

(** Entries are real numbers here; a pixel is [(real, imag)], a wavevector
    and a shift are pairs as well.  Image dimensions are unravelled:
    [coords] is [N x 2], [img] is [B x N x 2], [t] is [B x T x 2]. *)
Definition pair2 : Type := (R * R)%type.

(** One entry of [coords @ -t * -2 * np.pi] *)
Definition tfilt (coord shift : pair2) : R :=
  (fst coord * (- fst shift) + snd coord * (- snd shift)) * (-2) * PI.

(** [[img[...,0]*c - img[...,1]*s, img[...,0]*s + img[...,1]*c]] at one
    pixel for one shift *)
Definition shift_pixel (tk : pair2) (pc : pair2 * pair2) : pair2 :=
  let px := fst pc in
  let c := cos (tfilt (snd pc) tk) in
  let s := sin (tfilt (snd pc) tk) in
  (fst px * c - snd px * s, fst px * s + snd px * c).

(** One batch element: its image against each of its [T] shifts. *)
Definition translate_one (coords : list pair2) (im : list pair2)
           (tb : list pair2) : result (list (list pair2)) :=
  cols <- broadcast im coords ;;
  Ok (map (fun tk => map (shift_pixel tk) cols) tb).

Definition translate (coords : list pair2) (img : list (list pair2))
           (t : list (list pair2)) : result (list (list (list pair2))) :=
  batch <- broadcast img t ;;
  mapM (fun it => translate_one coords (fst it) (snd it)) batch.

(** [y.view(-1, N, 2)]: the batch and shift axes merged, which is how
    [VAE.decode] hands a translated image on. *)
Definition view_images (y : list (list (list pair2))) : list (list pair2) :=
  concat y.

(** A [B x 1 x 2] tensor holding one shift per batch element. *)
Definition one_shift_each (s : list pair2) : list (list pair2) :=
  map (fun x => [x]) s.

Definition add_shift (a b : pair2) : pair2 := (fst a + fst b, snd a + snd b).

(** [s1 + s2] on [B x 1 x 2] tensors of equal batch size *)
Definition add_shifts (s1 s2 : list pair2) : list pair2 :=
  map (fun ab => add_shift (fst ab) (snd ab)) (combine s1 s2).

End Translate.

(* ================================================================= *)
(** ** Tensors with a shape *)

(** Where the shape of a tensor matters ([view], [expand], [cat]) a tensor
    is its shape and its entries in row-major order. *)
Record tensor (A : Type) : Type := mkTensor {
  shape : list nat;
  data : list A
}.

Arguments mkTensor {A} shape data.
Arguments shape {A} t.
Arguments data {A} t.

Module Torch.

Definition numel (sh : list nat) : nat := fold_right Nat.mul 1 sh.

Definition well_formed {A} (t : tensor A) : Prop :=
  length (data t) = numel (shape t).

(** [t.ndimension()] *)
Definition ndimension {A} (t : tensor A) : nat := length (shape t).

(** [t.size(0)] *)
Definition size0 {A} (t : tensor A) : result nat :=
  match shape t with
  | n :: _ => Ok n
  | [] => Raise IndexError
  end.

(** [t.shape[-1]] *)
Definition last_dim {A} (t : tensor A) : result nat :=
  match rev (shape t) with
  | n :: _ => Ok n
  | [] => Raise IndexError
  end.

(** [t.view(sh)]: the same entries under a shape with as many entries. *)
Definition view {A} (t : tensor A) (sh : list nat) : result (tensor A) :=
  if numel sh =? length (data t) then Ok (mkTensor sh (data t))
  else Raise (RuntimeError "shape is invalid for input size").

(** [n] consecutive pieces of [k] entries each. *)
Fixpoint chunks {A} (n k : nat) (d : list A) : list (list A) :=
  match n with
  | 0 => []
  | S n' => firstn k d :: chunks n' k (skipn k d)
  end.

(** Entries of [t.expand(tgt)] for [t] of shape [src], both of one rank:
    an axis of size 1 is repeated, any other must agree. *)
Fixpoint expand_data {A} (src tgt : list nat) (d : list A)
  : result (list A) :=
  match src, tgt with
  | [], [] => Ok d
  | n :: src', m :: tgt' =>
      rows <- mapM (expand_data src' tgt') (chunks n (numel src') d) ;;
      if n =? m then Ok (concat rows)
      else if n =? 1 then Ok (concat (repeat (concat rows) m))
      else Raise (RuntimeError "expanded size must match existing size")
  | _, _ => Raise (RuntimeError "expanded size must match existing size")
  end.

(** [t.expand(tgt)]; missing leading axes count as size 1. *)
Definition expand {A} (t : tensor A) (tgt : list nat) : result (tensor A) :=
  if length tgt <? length (shape t)
  then Raise (RuntimeError "expanded size must match existing size")
  else
    let src := repeat 1 (length tgt - length (shape t)) ++ shape t in
    d <- expand_data src tgt (data t) ;;
    Ok (mkTensor tgt d).

Fixpoint list_eqb (l1 l2 : list nat) : bool :=
  match l1, l2 with
  | [], [] => true
  | a :: l1', b :: l2' => (a =? b) && list_eqb l1' l2'
  | _, _ => false
  end.

(** [torch.cat((a, b), dim=-1)] *)
Definition cat_last {A} (a b : tensor A) : result (tensor A) :=
  match rev (shape a), rev (shape b) with
  | la :: ra, lb :: rb =>
      if list_eqb ra rb
      then
        let n := numel ra in
        Ok (mkTensor (rev ra ++ [la + lb])
              (concat (map (fun xy => fst xy ++ snd xy)
                           (combine (chunks n la (data a))
                                    (chunks n lb (data b))))))
      else Raise (RuntimeError "sizes of tensors must match")
  | _, _ => Raise (RuntimeError "zero-dimensional tensor cannot be concatenated")
  end.

(** [a * b] for tensors of one shape *)
Definition mul {A} {SA : Scalar A} (a b : tensor A) : result (tensor A) :=
  if list_eqb (shape a) (shape b)
  then Ok (mkTensor (shape a)
             (map (fun xy => smul (fst xy) (snd xy))
                  (combine (data a) (data b))))
  else Raise (RuntimeError "tensor sizes must match").

Definition dot {A} {SA : Scalar A} (u v : list A) : A :=
  fold_right sadd szero (map (fun xy => smul (fst xy) (snd xy)) (combine u v)).

(** One matrix product: [x] is [n x m] by rows, [y] is [m x p] by rows. *)
Definition matmul2 {A} {SA : Scalar A} (p : nat) (x y : list (list A))
  : list (list A) :=
  map (fun row => map (fun j => dot row (map (fun r => nth j r szero) y))
                      (seq 0 p)) x.

(** [a @ b] for [a] of shape [B x n x m] and [b] of shape [B x m x p] *)
Definition matmul {A} {SA : Scalar A} (a b : tensor A) : result (tensor A) :=
  match shape a, shape b with
  | [B; n; m], [B'; m'; p] =>
      if (B =? B') && (m =? m')
      then
        let xs := map (chunks n m) (chunks B (n * m) (data a)) in
        let ys := map (chunks m p) (chunks B (m * p) (data b)) in
        Ok (mkTensor [B; n; p]
              (concat (map (fun xy => concat (matmul2 p (fst xy) (snd xy)))
                           (combine xs ys))))
      else Raise (RuntimeError "mat1 and mat2 shapes cannot be multiplied")
  | _, _ => Raise (RuntimeError "mat1 and mat2 shapes cannot be multiplied")
  end.

(** [torch.randn_like(t)]: a tensor of the shape of [t]; the numbers drawn
    are supplied by the caller as [noise]. *)
Definition randn_like {A} (noise : nat -> A) (t : tensor A) : tensor A :=
  mkTensor (shape t) (map noise (seq 0 (length (data t)))).

End Torch.

(* ================================================================= *)
(** ** [HetOnlyVAE] *)

Record Lattice : Type := mkLattice {
  lattice_D : nat
}.

Inductive encoder : Type :=
| ConvEncoder (hidden_dim out_dim : nat)
| ResidEncoder (main : list layer)
| MLPEncoder (main : list layer)
| TiltEncoder (encoder1 encoder2 : list layer) (in_dim : nat).

(** [TiltEncoder.__init__] *)
Definition TiltEncoder_init (in_dim nlayers hidden_dim out_dim : nat)
  : result encoder :=
  _ <- assert (2 <? nlayers) "" ;;
  Ok (TiltEncoder (ResidLinearMLP in_dim (nlayers - 2) hidden_dim hidden_dim)
                  (ResidLinearMLP (hidden_dim * 2) 2 hidden_dim out_dim)
                  in_dim).

Record HetOnlyVAE : Type := mkHetOnlyVAE {
  vae_lattice : Lattice;
  vae_in_dim : nat;
  vae_z_dim : nat;
  vae_encoder : encoder;
  vae_encode_mode : string;
  vae_decoder : FTSliceDecoder
}.

(** [HetOnlyVAE.__init__] *)
Definition HetOnlyVAE_init (lattice : Lattice)
           (in_dim encode_layers encode_dim decode_layers decode_dim : nat)
           (z_dim : nat) (encode_mode : string) : result HetOnlyVAE :=
  enc <-
    (if String.eqb encode_mode "conv" then
       _ <- assert (lattice_D lattice =? 64)
                   "CNN encoder is hard-coded for 64x64 images" ;;
       Ok (ConvEncoder encode_dim (z_dim * 2))
     else if String.eqb encode_mode "resid" then
       Ok (ResidEncoder
             (ResidLinearMLP in_dim encode_layers encode_dim (z_dim * 2)))
     else if String.eqb encode_mode "mlp" then
       Ok (MLPEncoder (MLP in_dim encode_layers encode_dim (z_dim * 2)))
     else if String.eqb encode_mode "tilt" then
       TiltEncoder_init in_dim encode_layers encode_dim (z_dim * 2)
     else
       Raise (RuntimeError
                ("Encoder mode " ++ encode_mode ++ " not recognized"))) ;;
  dec <- FTSliceDecoder_init (3 + z_dim) (lattice_D lattice)
                             decode_layers decode_dim ;;
  Ok (mkHetOnlyVAE lattice in_dim z_dim enc encode_mode dec).

(** [HetOnlyVAE.cat_z] *)
Definition cat_z {A} (coords z : tensor A) : result (tensor A) :=
  d <- Torch.last_dim coords ;;
  _ <- assert (d =? 3) "" ;;
  z0 <- Torch.size0 z ;;
  z <- Torch.view z (z0 :: repeat 1 (Torch.ndimension coords - 1)) ;;
  z <- Torch.expand z (removelast (shape coords) ++ [1]) ;;
  Torch.cat_last coords z.

(* ================================================================= *)
(** ** [SO3reparameterize.sampleSO3] *)

Section SO3.

Context {F : Type} {SF : Scalar F}.

(** [lie_tools.expmap] and [lie_tools.quaternions_to_SO3] live in a module
    that is not part of [models.py]; they are parameters here. *)
Variable expmap : tensor F -> result (tensor F).
Variable quaternions_to_SO3 : tensor F -> result (tensor F).

(** [training] is [self.training]; [noise] is what [torch.randn_like]
    draws. *)
Definition sampleSO3 (training : bool) (noise : nat -> F)
           (z_mu z_std : tensor F) : result (tensor F * tensor F) :=
  if negb training then Ok (z_mu, z_std)
  else
    let eps := Torch.randn_like noise z_std in
    w_eps <- Torch.mul eps z_std ;;
    rot_eps <- expmap w_eps ;;
    z_mu <- quaternions_to_SO3 z_mu ;;
    rot_sampled <- Torch.matmul z_mu rot_eps ;;
    Ok (rot_sampled, w_eps).

End SO3.

(* ================================================================= *)
(** ** [FTSliceDecoder.forward_symmetric] *)

(** [a[..., start:stop, :] = vals] on one image: the slice is clamped to the
    array as Python does; [vals] has as many rows as the slice, or one row
    that is repeated. *)
Definition set_slice {A} (start stop : nat) (vals : list A)
           (a : list (option A)) : result (list (option A)) :=
  let start' := Nat.min start (length a) in
  let stop' := Nat.min stop (length a) in
  let n := stop' - start' in
  if length vals =? n
  then Ok (firstn start' a ++ map Some vals ++ skipn (start' + n) a)
  else match vals with
       | [v] => Ok (firstn start' a ++ repeat (Some v) n
                      ++ skipn (start' + n) a)
       | _ => Raise (RuntimeError "shape mismatch")
       end.

Section Symmetric.

Context {F : Type} {SF : Scalar F}.
Variable f : list F -> F * F.

Notation "x <~ c ;; k" := (mbind c (fun x => k))
  (at level 61, c at next level, right associativity).

(** [lattice[..., 0:c+1, :]] is a view: it shares its storage with
    [lattice].  The view is handed to [decode] as a buffer of its own and
    what [decode] wrote to it is then written through to [lattice]. *)
Definition forward_symmetric (lat : loc) (c : nat)
  : store -> result (list (list (option (F * F))) * store) :=
  t <~ load lat ;;
  let image0 := map (fun pts : list (list F) =>
                       repeat (@None (F * F)) (length pts)) t in
  v <~ alloc (map (firstn (c + 1)) t) ;;
  top_half <~ decode f v ;;
  v' <~ load v ;;
  _ <~ write lat (map (fun vo : list (list F) * list (list F) =>
                         fst vo ++ skipn (c + 1) (snd vo))
                      (combine v' t)) ;;
  image1 <~ lift (zipM (set_slice 0 (c + 1)) top_half image0) ;;
  mirrored <~ lift (mapM (fun th : list (F * F) =>
                 vals <- gather (rev (seq 0 c)) th ;;
                 Ok (map (fun px => (smul (fst px) sone,
                                     smul (snd px) (sopp sone))) vals))
               top_half) ;;
  image2 <~ lift (zipM (fun (m : list (F * F)) im =>
                          set_slice (c + 1) (length im) m im)
                       mirrored image1) ;;
  mret image2.

End Symmetric.

(* ================================================================= *)
(** ** [ConvEncoder.forward] *)

(** [t.view(-1, d1, ..., dk)]: the leading size is inferred from the number
    of entries. *)
Definition view_infer_first {A} (t : tensor A) (rest : list nat)
  : result (tensor A) :=
  let r := Torch.numel rest in
  if r =? 0 then Raise (RuntimeError "cannot infer the unspecified dimension")
  else if length (data t) mod r =? 0
       then Ok (mkTensor (length (data t) / r :: rest) (data t))
       else Raise (RuntimeError "shape is invalid for input size").

(** [t.view(n, -1)]: the trailing size is inferred. *)
Definition view_infer_last {A} (t : tensor A) (n : nat) : result (tensor A) :=
  if n =? 0 then Raise (RuntimeError "cannot infer the unspecified dimension")
  else if length (data t) mod n =? 0
       then Ok (mkTensor [n; length (data t) / n] (data t))
       else Raise (RuntimeError "shape is invalid for input size").

(** [main] is the stack of convolutions, a parameter. *)
Definition ConvEncoder_forward {A} (main : tensor A -> result (tensor A))
           (x : tensor A) : result (tensor A) :=
  x <- view_infer_first x [1; 64; 64] ;;
  x <- main x ;;
  n <- Torch.size0 x ;;
  view_infer_last x n.

(* ================================================================= *)
(** ** [VAE.__init__] and [SO3reparameterize.forward], over the reals *)

Module RealModel.

Local Open Scope R_scope.

(** [np.linspace(-1, 1, n, endpoint=False)] *)
Definition linspace_open (n : nat) : list R :=
  map (fun k => INR k * ((1 - -1) / INR n) + -1) (seq 0 n).

(** [np.stack([x0.ravel(), x1.ravel(), np.zeros(ny*nx)], 1)] for
    [x0, x1 = np.meshgrid(linspace(nx), linspace(ny))] *)
Definition plane_lattice (nx ny : nat) : list (list R) :=
  flat_map (fun x1 => map (fun x0 => [x0; x1; 0]) (linspace_open nx))
           (linspace_open ny).

Record VAE : Type := mkVAE {
  nx_ : nat;
  ny_ : nat;
  VAE_in_dim : nat;
  VAE_encoder : encoder;
  so3_encoder : list layer;
  trans_encoder : list layer;
  VAE_decoder : FTSliceDecoder;
  VAE_lattice : list (list R)
}.

(** [VAE.__init__] *)
Definition VAE_init (nx ny encode_layers encode_dim decode_layers decode_dim
                     : nat) (encode_mode : string) : result VAE :=
  _ <- assert (2 <? encode_layers)%nat "" ;;
  enc <-
    (if String.eqb encode_mode "conv" then
       Ok (ConvEncoder encode_dim encode_dim)
     else if String.eqb encode_mode "resid" then
       Ok (ResidEncoder
             (ResidLinearMLP (nx * ny) (encode_layers - 2) encode_dim
                             encode_dim))
     else if String.eqb encode_mode "mlp" then
       Ok (MLPEncoder
             (MLP (nx * ny) (encode_layers - 2) encode_dim encode_dim))
     else
       Raise (RuntimeError
                ("Encoder mode " ++ encode_mode ++ " not recognized"))) ;;
  let so3 := ResidLinearMLP encode_dim 1 encode_dim 7 in
  let trans := ResidLinearMLP encode_dim 1 encode_dim 4 in
  dec <- FTSliceDecoder_init 3 nx decode_layers decode_dim ;;
  Ok (mkVAE nx ny (nx * ny) enc so3 trans dec (plane_lattice nx ny)).


End RealModel.

(** * Properties *)

(* ================================================================= *)
(** ** The integers as tensor entries *)

Lemma Z_mul_minus_one (x : Z) : (x * - (1))%Z = (- x)%Z.
Proof. lia. Qed.

Lemma Z_gtz_opp (x : Z) : (0 <? x)%Z = true -> (0 <? - x)%Z = false.
Proof. intros Hx. apply Z.ltb_lt in Hx. apply Z.ltb_ge. lia. Qed.

Lemma Z_opp_moves (x : Z) : (0 <? x)%Z = true -> (- x)%Z <> x.
Proof. intros Hx. apply Z.ltb_lt in Hx. lia. Qed.

#[export] Instance Z_Scalar : Scalar Z := {
  szero := 0%Z;
  sone := 1%Z;
  sadd := Z.add;
  smul := Z.mul;
  sopp := Z.opp;
  sgtz := fun x => (0 <? x)%Z;
  smul_one := Z.mul_1_r;
  smul_minus_one := Z_mul_minus_one;
  sgtz_opp := Z_gtz_opp;
  sopp_moves := Z_opp_moves
}.

(* ================================================================= *)
(** ** Facts about the index arrays *)

(** [int(D/2)] *)
Definition half (D : nat) : nat := D / 2.

Section IndexFacts.

Lemma length_meshgrid_ravel (D c0 w r0 h : nat) :
  length (Np.meshgrid_ravel D (seq c0 w) (seq r0 h)) = h * w.
Proof.
  unfold Np.meshgrid_ravel.
  revert r0; induction h as [|h IH]; intros r0; simpl; [reflexivity|].
  rewrite length_app, length_map, length_seq, IH. reflexivity.
Qed.

(** Entry [r * w + c] of the ravelled grid is the pixel in grid row [r] and
    grid column [c]. *)
Lemma nth_meshgrid_ravel (D c0 w r0 h r c : nat) :
  c < w -> r < h ->
  nth (r * w + c) (Np.meshgrid_ravel D (seq c0 w) (seq r0 h)) 0
  = (r0 + r) * D + (c0 + c).
Proof.
  unfold Np.meshgrid_ravel.
  revert r0 r; induction h as [|h IH]; intros r0 r Hc Hr; [lia|].
  simpl. destruct r as [|r].
  - rewrite app_nth1 by (rewrite length_map, length_seq; lia).
    simpl.
    rewrite nth_indep with (d' := r0 * D + 0)
      by (rewrite length_map, length_seq; lia).
    rewrite (map_nth (fun i => r0 * D + i)), seq_nth by lia.
    rewrite Nat.add_0_r. reflexivity.
  - rewrite app_nth2 by (rewrite length_map, length_seq; simpl; lia).
    rewrite length_map, length_seq.
    replace (S r * w + c - w) with (r * w + c) by (simpl; lia).
    rewrite IH by lia. f_equal. lia.
Qed.

(** Every position of a grid with [w] columns splits into a row and a
    column. *)
Lemma split_position (w k : nat) :
  0 < w -> k = (k / w) * w + k mod w /\ k mod w < w.
Proof.
  intros Hw. split.
  - rewrite Nat.mul_comm. apply Nat.div_mod_eq.
  - apply Nat.mod_upper_bound. lia.
Qed.

(** Position [r * w + c] of an array of [D2 * w] entries, counted from the
    end once [D2] entries are cut off, is position [(D2-1-r) * w + (w-1-c)]
    of the uncut array. *)
Lemma mirror_position (D2 w r c : nat) :
  c < w -> r < D2 -> r * w + c + D2 < D2 * w ->
  D2 + (D2 * w - D2 - S (r * w + c)) = (D2 - 1 - r) * w + (w - 1 - c).
Proof.
  intros Hc Hr Hk.
  assert (Ha : exists a, D2 = a + 1 + r) by (exists (D2 - 1 - r); lia).
  assert (Hb : exists b, w = b + 1 + c) by (exists (w - 1 - c); lia).
  destruct Ha as [a ->], Hb as [b ->].
  replace (a + 1 + r - 1 - r) with a by lia.
  replace (b + 1 + c - 1 - c) with b by lia.
  rewrite !Nat.mul_add_distr_r, !Nat.mul_add_distr_l,
    !Nat.mul_1_l, !Nat.mul_1_r in *.
  lia.
Qed.

Lemma row_bound (D2 w r c : nat) : r * w + c + D2 < D2 * w -> r < D2.
Proof.
  intros Hk. destruct (Nat.lt_ge_cases r D2) as [Hlt|Hge]; [exact Hlt|].
  pose proof (Nat.mul_le_mono_r D2 r w Hge). lia.
Qed.

Variable D : nat.
Hypothesis D_even : Nat.even D = true.
Hypothesis D_pos : 0 < D.

Let D2 := half D.

Lemma D_twice : D = 2 * D2.
Proof.
  unfold D2, half. apply Nat.even_spec in D_even. destruct D_even as [m ->].
  rewrite Nat.mul_comm, Nat.div_mul by lia. lia.
Qed.

Lemma D2_pos : 0 < D2.
Proof. pose proof D_twice. lia. Qed.

Lemma rows_cut : D2 * (D - 1) = D2 * (D - 2) + D2.
Proof.
  pose proof D_twice. pose proof D2_pos.
  replace (D - 1) with ((D - 2) + 1) by lia.
  rewrite Nat.mul_add_distr_l. lia.
Qed.

(** The two arrays before the constructor cuts and reverses them. *)
Let top_full := Np.meshgrid_ravel D (Np.arange 1 D) (Np.arange 1 (D2 + 1)).
Let bottom_full := Np.meshgrid_ravel D (Np.arange 1 D) (Np.arange D2 D).

Lemma length_top_full : length top_full = D2 * (D - 1).
Proof.
  unfold top_full, Np.arange. rewrite length_meshgrid_ravel. f_equal. lia.
Qed.

Lemma length_bottom_full : length bottom_full = D2 * (D - 1).
Proof.
  unfold bottom_full, Np.arange. rewrite length_meshgrid_ravel.
  pose proof D_twice. f_equal. lia.
Qed.

Definition top_of : list nat := Np.drop_last D2 top_full.
Definition bottom_rev_of : list nat := rev (Np.drop_first D2 bottom_full).

Lemma length_top_of : length top_of = D2 * (D - 2).
Proof.
  unfold top_of, Np.drop_last. pose proof D2_pos.
  destruct (Nat.eqb_spec D2 0); [lia|].
  rewrite length_firstn, length_top_full, rows_cut.
  generalize (D2 * (D - 2)). lia.
Qed.

Lemma length_bottom_rev_of : length bottom_rev_of = D2 * (D - 2).
Proof.
  unfold bottom_rev_of, Np.drop_first.
  rewrite length_rev, length_skipn, length_bottom_full, rows_cut.
  generalize (D2 * (D - 2)). lia.
Qed.

Lemma nth_top_of (r c : nat) :
  c < D - 1 -> r * (D - 1) + c < D2 * (D - 2) ->
  nth (r * (D - 1) + c) top_of 0 = (1 + r) * D + (1 + c) /\ r < D2.
Proof.
  intros Hc Hk.
  pose proof rows_cut as Hcut. pose proof D2_pos.
  assert (Hr : r < D2) by (apply (row_bound D2 (D - 1) r c); lia).
  split; [|exact Hr].
  unfold top_of, Np.drop_last.
  destruct (Nat.eqb_spec D2 0); [lia|].
  rewrite nth_firstn, length_top_full.
  destruct (Nat.ltb_spec (r * (D - 1) + c) (D2 * (D - 1) - D2)); [|lia].
  unfold top_full, Np.arange.
  replace (D2 + 1 - 1) with D2 by lia.
  apply nth_meshgrid_ravel; lia.
Qed.

Lemma nth_bottom_rev_of (r c : nat) :
  c < D - 1 -> r * (D - 1) + c < D2 * (D - 2) ->
  nth (r * (D - 1) + c) bottom_rev_of 0 = (D - (1 + r)) * D + (D - (1 + c)).
Proof.
  intros Hc Hk.
  pose proof D_twice as HD. pose proof D2_pos. pose proof rows_cut as Hcut.
  assert (Hr : r < D2) by (apply (row_bound D2 (D - 1) r c); lia).
  unfold bottom_rev_of, Np.drop_first.
  rewrite rev_nth by (rewrite length_skipn, length_bottom_full; lia).
  rewrite length_skipn, length_bottom_full, nth_skipn.
  rewrite mirror_position by lia.
  unfold bottom_full, Np.arange.
  rewrite nth_meshgrid_ravel by lia.
  replace (D2 + (D2 - 1 - r)) with (D - (1 + r)) by lia.
  f_equal. lia.
Qed.

End IndexFacts.

Lemma grid_coords_unique (D j i j' i' : nat) :
  i < D -> i' < D -> j * D + i = j' * D + i' -> j = j' /\ i = i'.
Proof.
  intros Hi Hi' E.
  assert (Hj : j = (j * D + i) / D)
    by (rewrite Nat.div_add_l, Nat.div_small by lia; lia).
  assert (Hj' : j' = (j' * D + i') / D)
    by (rewrite Nat.div_add_l, Nat.div_small by lia; lia).
  rewrite E in Hj. rewrite <- Hj' in Hj. subst j'. split; [reflexivity|lia].
Qed.

(** For a positive size the constructor succeeds, and its [top] and
    [bottom_rev] are the arrays studied above. *)
Lemma FTSliceDecoder_init_ok (in_dim D nlayers hidden_dim : nat) :
  0 < D ->
  exists dec,
    FTSliceDecoder_init in_dim D nlayers hidden_dim = Ok dec
    /\ top dec = top_of D
    /\ bottom_rev dec = bottom_rev_of D
    /\ center dec = half D * D + half D
    /\ all_eval dec = Np.arange 0 (center dec + 1) ++ extra dec
    /\ Np.arange_step ((half D + 1) * D) (D ^ 2) D = Ok (extra dec)
    /\ D_ dec = D /\ D2_ dec = half D.
Proof.
  intros HD. unfold FTSliceDecoder_init, Np.arange_step.
  destruct (Nat.eqb_spec D 0) as [->|_]; [lia|].
  eexists. split; [reflexivity|]. simpl.
  repeat split; reflexivity.
Qed.

Lemma FTSliceDecoder_init_zero (in_dim nlayers hidden_dim : nat) :
  FTSliceDecoder_init in_dim 0 nlayers hidden_dim = Raise ZeroDivisionError.
Proof. reflexivity. Qed.

(** The grid row and column behind each position of [top], and the partner
    found at the same position of [bottom_rev]. *)
Lemma top_bottom_rev_at (D k : nat) :
  Nat.even D = true -> 0 < D -> k < half D * (D - 2) ->
  exists j i,
    1 <= j <= half D /\ 1 <= i <= D - 1
    /\ nth k (top_of D) 0 = j * D + i
    /\ nth k (bottom_rev_of D) 0 = (D - j) * D + (D - i)
    /\ k = (j - 1) * (D - 1) + (i - 1).
Proof.
  intros Hev HD Hk.
  pose proof (D_twice Hev) as H2.
  assert (Hw : 0 < D - 1) by lia.
  destruct (split_position k Hw) as [Ek Hc].
  set (r := k / (D - 1)) in *. set (c := k mod (D - 1)) in *.
  rewrite Ek in Hk.
  destruct (nth_top_of Hev HD r Hc Hk) as [Ht Hr].
  pose proof (nth_bottom_rev_of Hev HD r Hc Hk) as Hb.
  exists (1 + r), (1 + c).
  rewrite Ek. repeat split; try lia; try assumption.
Qed.

(** C3: for every even [D] the constructor builds [top] and [bottom_rev] of
    equal length, and position by position [bottom_rev[k]] is the point
    reflection through the grid centre of [top[k]]: [top[k]] is a pixel
    [j*D+i] with [1 <= j <= D/2] and [1 <= i <= D-1], and whenever it is
    written so, [bottom_rev[k] = (D-j)*D + (D-i)].  The constructor returns
    for every positive even [D]. *)
Theorem bottom_rev_is_point_reflection_of_top
  (in_dim D nlayers hidden_dim : nat) :
  Nat.even D = true ->
  (0 < D -> exists dec,
      FTSliceDecoder_init in_dim D nlayers hidden_dim = Ok dec)
  /\ forall dec,
      FTSliceDecoder_init in_dim D nlayers hidden_dim = Ok dec ->
      length (top dec) = length (bottom_rev dec)
      /\ forall k, k < length (top dec) ->
           (exists j i, 1 <= j <= D / 2 /\ 1 <= i <= D - 1
                        /\ nth k (top dec) 0 = j * D + i)
           /\ (forall j i, 1 <= j <= D / 2 -> 1 <= i <= D - 1 ->
                 nth k (top dec) 0 = j * D + i ->
                 nth k (bottom_rev dec) 0 = (D - j) * D + (D - i)).
Proof.
  intros Hev. split.
  - intros HD.
    destruct (FTSliceDecoder_init_ok in_dim nlayers hidden_dim HD)
      as (dec & E & _).
    exists dec. exact E.
  - intros dec E.
    destruct (Nat.eq_dec D 0) as [->|HD0];
      [rewrite FTSliceDecoder_init_zero in E; discriminate|].
    assert (HD : 0 < D) by lia.
    destruct (FTSliceDecoder_init_ok in_dim nlayers hidden_dim HD)
      as (dec' & E' & Ht & Hb & _).
    rewrite E in E'. injection E' as <-.
    rewrite Ht, Hb, (length_top_of Hev HD), (length_bottom_rev_of Hev HD).
    split; [reflexivity|].
    intros k Hk.
    destruct (top_bottom_rev_at Hev HD Hk) as (j & i & Hj & Hi & Et & Eb & _).
    fold (half D). split.
    + exists j, i. auto.
    + intros j' i' Hj' Hi' Et'.
      rewrite Et in Et'.
      assert (Huniq : j = j' /\ i = i')
        by (apply (@grid_coords_unique D); [lia | lia | exact Et']).
      destruct Huniq as [<- <-]. exact Eb.
Qed.

Lemma bottom_rev_is_point_reflection_of_top_witness :
  Nat.even 8 = true
  /\ exists dec,
      FTSliceDecoder_init 3 8 1 4 = Ok dec
      /\ nth 0 (top dec) 0 = 1 * 8 + 1
      /\ nth 0 (bottom_rev dec) 0 = (8 - 1) * 8 + (8 - 1).
Proof.
  split; [reflexivity|].
  destruct (@bottom_rev_is_point_reflection_of_top 3 8 1 4 eq_refl)
    as [Hex Hall].
  destruct (Hex ltac:(lia)) as [dec E].
  exists dec. split; [exact E|].
  destruct (Hall dec E) as [_ Hk].
  assert (H0 : 0 < length (top dec))
    by (vm_compute in E; injection E as <-; simpl; lia).
  destruct (Hk 0 H0) as [_ Himp].
  assert (Et : nth 0 (top dec) 0 = 1 * 8 + 1)
    by (vm_compute in E; injection E as <-; reflexivity).
  split; [exact Et|].
  apply Himp; [simpl; lia | lia | exact Et].
Defined.

(* ================================================================= *)
(** ** Index completeness for [D = 8] *)

(** Every flattened pixel of a [D x D] grid is written exactly once by the
    two assignments of [forward] (through [all_eval] and through
    [bottom_rev]), and [top] and [bottom_rev] both have [n] entries. *)
Definition index_completeness (D n : nat) (dec : FTSliceDecoder) : Prop :=
  (forall p, p < D * D ->
     count_occ Nat.eq_dec (all_eval dec ++ bottom_rev dec) p = 1)
  /\ length (all_eval dec ++ bottom_rev dec) = D * D
  /\ NoDup (all_eval dec ++ bottom_rev dec)
  /\ length (top dec) = n
  /\ length (bottom_rev dec) = n.

Definition occurs_onceb (l : list nat) (p : nat) : bool :=
  count_occ Nat.eq_dec l p =? 1.

Lemma occurs_once_upto (l : list nat) (n : nat) :
  forallb (occurs_onceb l) (seq 0 n) = true ->
  forall p, p < n -> count_occ Nat.eq_dec l p = 1.
Proof.
  intros H p Hp. rewrite forallb_forall in H.
  apply Nat.eqb_eq. apply (H p). apply in_seq. lia.
Qed.

Lemma NoDup_of_occurs_once (l : list nat) :
  forallb (occurs_onceb l) l = true -> NoDup l.
Proof.
  intros H. rewrite forallb_forall in H.
  apply (NoDup_count_occ Nat.eq_dec). intros x.
  destruct (in_dec Nat.eq_dec x l) as [Hin|Hnin].
  - apply H in Hin. apply Nat.eqb_eq in Hin. unfold occurs_onceb in Hin. lia.
  - apply (count_occ_not_In Nat.eq_dec) in Hnin. lia.
Qed.

(** C4 (as the code has it): for [D = 8] the constructor's [all_eval] and
    [bottom_rev] together list every flattened pixel index of [0, 64)
    exactly once, without duplicates, and [top] and [bottom_rev] both have
    24 entries. *)
Theorem index_completeness_D8 (in_dim nlayers hidden_dim : nat) :
  exists dec,
    FTSliceDecoder_init in_dim 8 nlayers hidden_dim = Ok dec
    /\ index_completeness 8 24 dec.
Proof.
  eexists. split; [reflexivity|].
  unfold index_completeness.
  cbn [all_eval bottom_rev top].
  split; [|split; [|split]].
  - apply occurs_once_upto. vm_compute. reflexivity.
  - vm_compute. reflexivity.
  - apply NoDup_of_occurs_once. vm_compute. reflexivity.
  - split; vm_compute; reflexivity.
Qed.

(** C4 as stated asks for 27 entries; the arrays have 24. *)
Lemma index_completeness_D8_not_27 :
  ~ (exists dec,
       FTSliceDecoder_init 3 8 1 4 = Ok dec /\ index_completeness 8 27 dec).
Proof.
  intros (dec & E & _ & _ & _ & Htop & _).
  vm_compute in E. injection E as <-.
  simpl in Htop. discriminate.
Qed.

(* ================================================================= *)
(** ** Facts about the list operations *)

Lemma mapM_total {A B} (g : A -> result B) (h : A -> B) (l : list A) :
  Forall (fun a => g a = Ok (h a)) l -> mapM g l = Ok (map h l).
Proof.
  induction 1 as [|a l Ha _ IH]; simpl; [reflexivity|].
  rewrite Ha. simpl. rewrite IH. reflexivity.
Qed.

Lemma zipM_map {A B C X} (g : A -> B -> result C) (a : X -> A) (b : X -> B)
      (l : list X) :
  zipM g (map a l) (map b l) = mapM (fun x => g (a x) (b x)) l.
Proof.
  induction l as [|x l IH]; simpl; [reflexivity|].
  destruct (g (a x) (b x)); simpl; [|reflexivity].
  rewrite IH. reflexivity.
Qed.

Lemma length_update_nth {A} (i : nat) (x : A) (l : list A) :
  length (update_nth i x l) = length l.
Proof.
  revert i; induction l as [|y l IH]; intros [|i]; simpl; auto.
Qed.

Lemma nth_error_update_nth_eq {A} (i : nat) (x : A) (l : list A) :
  i < length l -> nth_error (update_nth i x l) i = Some x.
Proof.
  revert i; induction l as [|y l IH]; intros [|i] Hi; simpl in *;
    try lia; [reflexivity|].
  apply IH. lia.
Qed.

Lemma nth_error_update_nth_neq {A} (i j : nat) (x : A) (l : list A) :
  i <> j -> nth_error (update_nth i x l) j = nth_error l j.
Proof.
  revert i j; induction l as [|y l IH]; intros [|i] [|j] Hij; simpl;
    try reflexivity; try lia.
  apply IH. lia.
Qed.

Section ListFacts.

Context {A : Type}.

Lemma gather_total (idx : list nat) (a : list A) (d : A) :
  Forall (fun i => i < length a) idx ->
  gather idx a = Ok (map (fun i => nth i a d) idx).
Proof.
  intros Hidx. apply mapM_total.
  eapply Forall_impl; [|exact Hidx]. intros i Hi. cbv beta.
  rewrite (nth_error_nth' a d Hi). reflexivity.
Qed.

(** The array after [a[idx] = vals], when the assignment is well formed. *)
Definition scattered (idx : list nat) (vals : list A) (a : list (option A))
  : list (option A) :=
  fold_left (fun acc iv => update_nth (fst iv) (Some (snd iv)) acc)
            (combine idx vals) a.

Lemma length_scattered (idx : list nat) (vals : list A) (a : list (option A)) :
  length (scattered idx vals a) = length a.
Proof.
  unfold scattered. revert vals a.
  induction idx as [|i idx IH]; intros [|v vals] a; simpl; auto.
  rewrite IH. apply length_update_nth.
Qed.

Lemma scatter_total (idx : list nat) (vals : list A) (a : list (option A)) :
  length idx = length vals ->
  Forall (fun i => i < length a) idx ->
  scatter idx vals a = Ok (scattered idx vals a).
Proof.
  unfold scattered. revert vals a.
  induction idx as [|i idx IH]; intros [|v vals] a Hlen Hidx;
    simpl in *; try discriminate; [reflexivity|].
  inversion Hidx as [|? ? Hi Hrest]; subst.
  destruct (Nat.ltb_spec i (length a)); [|lia].
  apply IH; [lia|].
  eapply Forall_impl; [|exact Hrest].
  intros j Hj. rewrite length_update_nth. exact Hj.
Qed.

(** An entry that the assignment does not address keeps its value. *)
Lemma scattered_other (idx : list nat) (vals : list A) (a : list (option A))
      (p : nat) :
  ~ In p idx -> nth_error (scattered idx vals a) p = nth_error a p.
Proof.
  unfold scattered. revert vals a.
  induction idx as [|i idx IH]; intros [|v vals] a Hp; simpl; auto.
  rewrite IH by (intros Hin; apply Hp; right; exact Hin).
  apply nth_error_update_nth_neq. intros ->. apply Hp. left. reflexivity.
Qed.

(** With distinct indices, entry [idx[k]] ends up holding [vals[k]]. *)
Lemma scattered_at (idx : list nat) (vals : list A) (a : list (option A))
      (k : nat) (d : A) :
  NoDup idx -> length idx = length vals ->
  Forall (fun i => i < length a) idx ->
  k < length idx ->
  nth_error (scattered idx vals a) (nth k idx 0) = Some (Some (nth k vals d)).
Proof.
  revert vals a k.
  induction idx as [|i idx IH]; intros [|v vals] a k Hnd Hlen Hidx Hk;
    simpl in *; try lia.
  inversion Hnd as [|? ? Hni Hnd']; subst.
  inversion Hidx as [|? ? Hi Hrest]; subst.
  assert (Hrest' : Forall (fun j => j < length (update_nth i (Some v) a)) idx).
  { eapply Forall_impl; [|exact Hrest].
    intros j Hj. rewrite length_update_nth. exact Hj. }
  destruct k as [|k].
  - change (nth_error (scattered idx vals (update_nth i (Some v) a)) i
            = Some (Some v)).
    rewrite scattered_other by exact Hni.
    apply nth_error_update_nth_eq. exact Hi.
  - apply (IH vals (update_nth i (Some v) a) k); auto; lia.
Qed.

End ListFacts.

Lemma where_map_map {X A} (b : X -> bool) (h : X -> A) (g : A -> A)
      (t : list (list X)) :
  where_ (map (map b) t) g (map (map h) t)
  = map (map (fun x => if b x then g (h x) else h x)) t.
Proof.
  unfold where_. induction t as [|row t IH]; simpl; [reflexivity|].
  f_equal; [|exact IH].
  clear IH. induction row as [|x row IH]; simpl; [reflexivity|].
  f_equal. exact IH.
Qed.

(* ================================================================= *)
(** ** What [decode] computes and what it leaves in the store *)

Section DecodeFacts.

Context {F : Type} {SF : Scalar F}.
Variable f : list F -> F * F.

(** Does the point have a third coordinate that is [> 0.0]? *)
Definition zpos (p : list F) : bool :=
  match nth_error p 2 with
  | Some z => sgtz z
  | None => false
  end.

(** The point as [decode] leaves it in the caller's buffer. *)
Definition flipped (p : list F) : list F :=
  if zpos p then negate_xyz p else p.

(** The value [decode] returns for the point. *)
Definition decoded (p : list F) : F * F :=
  if zpos p
  then (fst (f (negate_xyz p)), smul (snd (f (negate_xyz p))) (sopp sone))
  else f p.

(** Every point of the tensor has at least three coordinates. *)
Definition spatial (t : list (list (list F))) : Prop :=
  Forall (Forall (fun p => 3 <= length p)) t.

Lemma z_positive_total (p : list F) :
  3 <= length p -> z_positive p = Ok (zpos p).
Proof.
  intros Hp. unfold z_positive, zpos.
  destruct (nth_error p 2) eqn:E; [reflexivity|].
  apply nth_error_None in E. lia.
Qed.

Lemma mask_total (t : list (list (list F))) :
  spatial t -> mapM (mapM z_positive) t = Ok (map (map zpos) t).
Proof.
  intros Ht. apply mapM_total.
  eapply Forall_impl; [|exact Ht]. intros row Hrow. cbv beta.
  apply mapM_total.
  eapply Forall_impl; [|exact Hrow]. intros p Hp. apply z_positive_total, Hp.
Qed.

Lemma decode_spec (s : store) (l : loc) (t : list (list (list F))) :
  nth_error s l = Some t -> spatial t ->
  decode f l s
  = Ok (map (map decoded) t, update_nth l (map (map flipped) t) s).
Proof.
  intros Hl Ht.
  assert (Hlen : l < length s) by (apply nth_error_Some; congruence).
  unfold decode, mbind, load, lift, write, mret.
  rewrite Hl, (mask_total Ht).
  destruct (Nat.ltb_spec l (length s)); [|lia].
  rewrite (nth_error_update_nth_eq _ _ Hlen).
  replace (where_ (map (map zpos) t) negate_xyz t)
    with (map (map flipped) t).
  2:{ rewrite <- (map_id t) at 3.
      rewrite <- (map_ext (map (fun p : list F => p)) (fun r => r))
        by (intros r; apply map_id).
      rewrite where_map_map. reflexivity. }
  f_equal. f_equal.
  rewrite map_map.
  rewrite (map_ext (fun r => map f (map flipped r))
                   (map (fun p => f (flipped p))))
    by (intros r; apply map_map).
  rewrite where_map_map.
  apply map_ext; intros r. apply map_ext; intros p.
  unfold decoded, flipped. destruct (zpos p); reflexivity.
Qed.

End DecodeFacts.

(* ================================================================= *)
(** ** [decode]: in-place negation and central-slice consistency *)

Lemma map_fixed {A} (g : A -> A) (l : list A) :
  map g l = l -> Forall (fun x => g x = x) l.
Proof.
  induction l as [|x l IH]; simpl; intros E; constructor.
  - injection E as E1 _. exact E1.
  - apply IH. injection E as _ E2. exact E2.
Qed.

Lemma nth_error_update_nth_other {A} (i j : nat) (x : A) (l : list A) :
  j <> i -> nth_error (update_nth i x l) j = nth_error l j.
Proof. intros H. apply nth_error_update_nth_neq. auto. Qed.

Section DecodeClaims.

Context {F : Type} {SF : Scalar F}.
Variable f : list F -> F * F.

Lemma negate_xyz_moves (p : list F) : zpos p = true -> negate_xyz p <> p.
Proof.
  unfold zpos, negate_xyz.
  destruct p as [|x [|y [|z rest]]]; simpl; try discriminate.
  intros Hz E. injection E as _ _ Ez.
  exact (@sopp_moves _ _ z Hz Ez).
Qed.

Lemma flipped_fixed (p : list F) : flipped p = p -> zpos p = false.
Proof.
  unfold flipped. destruct (zpos p) eqn:Hz; [|reflexivity].
  intros E. destruct (negate_xyz_moves Hz E).
Qed.

(** [decode] called on a tensor of its own: the caller allocates the
    buffer and hands it over. *)
Definition decode_fresh (t : list (list (list F)))
  : M (list (list (F * F))) :=
  mbind (alloc t) (decode f).

(** C9: [decode] writes to the caller's buffer.  When the lattice holds at
    least one point with [z > 0], the call returns and the buffer at the
    caller's location then holds the lattice with the first three
    coordinates of exactly the points with [z > 0] negated, which differs
    from what it held before; no other buffer changes. *)
Theorem decode_mutates_caller_buffer
  (s : store) (l : loc) (t : list (list (list F))) :
  nth_error s l = Some t ->
  spatial t ->
  Exists (Exists (fun p => zpos p = true)) t ->
  exists res s' t',
    decode f l s = Ok (res, s')
    /\ nth_error s' l = Some t'
    /\ t' = map (map (fun p => if zpos p then negate_xyz p else p)) t
    /\ t' <> t
    /\ forall l', l' <> l -> nth_error s' l' = nth_error s l'.
Proof.
  intros Hl Ht Hex.
  assert (Hlen : l < length s) by (apply nth_error_Some; congruence).
  exists (map (map (decoded f)) t),
         (update_nth l (map (map flipped) t) s),
         (map (map flipped) t).
  split; [apply decode_spec; assumption|].
  split; [apply nth_error_update_nth_eq; exact Hlen|].
  split; [reflexivity|].
  split.
  - intros E. apply map_fixed in E.
    apply Exists_exists in Hex. destruct Hex as (row & Hrow & Hex).
    rewrite Forall_forall in E. specialize (E row Hrow).
    apply map_fixed in E.
    apply Exists_exists in Hex. destruct Hex as (p & Hp & Hz).
    rewrite Forall_forall in E. specialize (E p Hp).
    apply flipped_fixed in E. congruence.
  - intros l' Hl'. apply nth_error_update_nth_other. exact Hl'.
Qed.

(** C5: for a 3D point [p = (x, y, z)] with [z > 0], [decode] of the
    one-point lattice [p] returns [(real, -imag)] of what [decode] of the
    one-point lattice [-p] returns, each call on a buffer of its own. *)
Theorem decode_negation_consistent (s : store) (x y z : F) :
  sgtz z = true ->
  exists re im s1 s2,
    decode_fresh [[[sopp x; sopp y; sopp z]]] s = Ok ([[(re, im)]], s2)
    /\ decode_fresh [[[x; y; z]]] s = Ok ([[(re, sopp im)]], s1).
Proof.
  intros Hz.
  assert (Hsp : forall a b c : F, spatial [[[a; b; c]]]).
  { intros a b c. repeat constructor. }
  assert (Hfresh : forall t : list (list (list F)),
             nth_error (s ++ [t]) (length s) = Some t).
  { intros t. rewrite nth_error_app2, Nat.sub_diag by lia. reflexivity. }
  unfold decode_fresh, mbind, alloc.
  rewrite !(decode_spec f _ _ (Hfresh _) (Hsp _ _ _)).
  simpl. unfold decoded, zpos, negate_xyz. simpl.
  rewrite Hz, (@sgtz_opp _ _ z Hz), smul_minus_one.
  destruct (f [sopp x; sopp y; sopp z]) as [re im]. simpl.
  eexists re, im, _, _. split; reflexivity.
Qed.

End DecodeClaims.

Definition sample_decoder (p : list Z) : Z * Z :=
  (nth 0 p 0 + 10 * nth 1 p 0, nth 2 p 0 + 1)%Z.

Lemma decode_mutates_caller_buffer_witness :
  exists res s' t',
    decode sample_decoder 0 [[[[1; 2; 3]; [4; 5; -6]]]]%Z = Ok (res, s')
    /\ nth_error s' 0 = Some t'
    /\ t' = [[[-1; -2; -3]; [4; 5; -6]]]%Z.
Proof.
  destruct (@decode_mutates_caller_buffer Z Z_Scalar sample_decoder
              [[[[1; 2; 3]; [4; 5; -6]]]]%Z 0 [[[1; 2; 3]; [4; 5; -6]]]%Z)
    as (res & s' & t' & Hd & Hs & Ht & _).
  - reflexivity.
  - repeat constructor; simpl; lia.
  - constructor. constructor. reflexivity.
  - exists res, s', t'. repeat split; assumption.
Defined.

Lemma decode_negation_consistent_witness :
  exists re im s1 s2,
    decode_fresh sample_decoder [[[-1; -2; -3]]]%Z [] = Ok ([[(re, im)]], s2)
    /\ decode_fresh sample_decoder [[[1; 2; 3]]]%Z [] = Ok ([[(re, (- im)%Z)]], s1).
Proof.
  apply (@decode_negation_consistent Z Z_Scalar sample_decoder [] 1%Z 2%Z 3%Z).
  reflexivity.
Defined.

(* ================================================================= *)
(** ** Where the index arrays point *)

Section IndexRanges.

Variable D : nat.
Hypothesis D_even : Nat.even D = true.
Hypothesis D_pos : 0 < D.

Let D2 := half D.
Let c := D2 * D + D2.

Lemma square_split : D * D = D2 * D + D2 * D.
Proof.
  pose proof (D_twice D_even D_pos) as H2. fold D2 in H2.
  replace (D * D) with ((2 * D2) * D) by (rewrite <- H2; reflexivity).
  rewrite <- Nat.mul_assoc. generalize (D2 * D). intros. lia.
Qed.

Lemma center_in_grid : c < D * D.
Proof.
  pose proof (D_twice D_even D_pos) as H2. fold D2 in H2.
  pose proof (D2_pos D_even D_pos) as Hp. fold D2 in Hp.
  unfold c. rewrite square_split.
  assert (D2 < D2 * D); [|lia].
  rewrite <- (Nat.mul_1_r D2) at 1. apply Nat.mul_lt_mono_pos_l; lia.
Qed.

Lemma extra_values :
  Np.arange_step ((D2 + 1) * D) (D ^ 2) D
  = Ok (map (fun k => (D2 + 1) * D + k * D) (seq 0 (D2 - 1))).
Proof.
  pose proof (D_twice D_even D_pos) as H2. fold D2 in H2.
  pose proof (D2_pos D_even D_pos) as Hp. fold D2 in Hp.
  unfold Np.arange_step.
  destruct (Nat.eqb_spec D 0); [lia|].
  do 3 f_equal.
  rewrite Nat.pow_2_r, <- Nat.mul_sub_distr_r.
  replace (D - (D2 + 1)) with (D2 - 1) by lia.
  rewrite Nat.div_add_l, Nat.div_small by lia. lia.
Qed.

Lemma top_below_center (k : nat) :
  k < D2 * (D - 2) -> D < nth k (top_of D) 0 < c.
Proof.
  intros Hk.
  pose proof (D_twice D_even D_pos) as H2. fold D2 in H2.
  destruct (top_bottom_rev_at D_even D_pos Hk)
    as (j & i & Hj & Hi & Et & _ & Ek).
  fold D2 in Hj. rewrite Et. unfold c. split.
  - assert (1 * D <= j * D) by (apply Nat.mul_le_mono_r; lia). lia.
  - destruct (Nat.eq_dec j D2) as [->|Hne].
    + assert (i < D2); [|lia].
      rewrite Ek in Hk.
      pose proof (rows_cut D_even D_pos) as Hcut. fold D2 in Hcut.
      replace D2 with ((D2 - 1) + 1) in Hcut at 1 by lia.
      rewrite Nat.mul_add_distr_r in Hcut.
      generalize dependent ((D2 - 1) * (D - 1)).
      generalize dependent (D2 * (D - 2)). intros. lia.
    + assert (S j * D <= D2 * D) by (apply Nat.mul_le_mono_r; lia).
      simpl in *. lia.
Qed.

Lemma bottom_rev_from_top (k : nat) :
  k < D2 * (D - 2) ->
  nth k (bottom_rev_of D) 0 + nth k (top_of D) 0 = D * D + D.
Proof.
  intros Hk.
  pose proof (D_twice D_even D_pos) as H2. fold D2 in H2.
  destruct (top_bottom_rev_at D_even D_pos Hk)
    as (j & i & Hj & Hi & Et & Eb & _).
  fold D2 in Hj. rewrite Et, Eb.
  rewrite Nat.mul_sub_distr_r.
  assert (j * D <= D * D) by (apply Nat.mul_le_mono_r; lia).
  lia.
Qed.

Lemma bottom_rev_above_center (k : nat) :
  k < D2 * (D - 2) -> c < nth k (bottom_rev_of D) 0 < D * D.
Proof.
  intros Hk.
  pose proof (D_twice D_even D_pos) as H2. fold D2 in H2.
  pose proof (bottom_rev_from_top Hk) as Hsum.
  pose proof (top_below_center Hk) as Ht.
  pose proof square_split as Hsq.
  unfold c in *. lia.
Qed.

Lemma top_injective (k k' : nat) :
  k < D2 * (D - 2) -> k' < D2 * (D - 2) ->
  nth k (top_of D) 0 = nth k' (top_of D) 0 -> k = k'.
Proof.
  intros Hk Hk' E.
  destruct (top_bottom_rev_at D_even D_pos Hk)
    as (j & i & Hj & Hi & Et & _ & Ek).
  destruct (top_bottom_rev_at D_even D_pos Hk')
    as (j' & i' & Hj' & Hi' & Et' & _ & Ek').
  rewrite Et, Et' in E.
  assert (Huniq : j = j' /\ i = i')
    by (apply (@grid_coords_unique D); [lia | lia | exact E]).
  destruct Huniq as [<- <-]. congruence.
Qed.

Lemma NoDup_bottom_rev : NoDup (bottom_rev_of D).
Proof.
  apply (NoDup_nth _ 0). rewrite (length_bottom_rev_of D_even D_pos).
  fold D2. intros k k' Hk Hk' E.
  pose proof (bottom_rev_from_top Hk). pose proof (bottom_rev_from_top Hk').
  apply top_injective; try assumption. lia.
Qed.

Lemma top_not_in_bottom_rev (k : nat) :
  k < D2 * (D - 2) -> ~ In (nth k (top_of D) 0) (bottom_rev_of D).
Proof.
  intros Hk Hin.
  apply (In_nth _ _ 0) in Hin. destruct Hin as (k' & Hk' & E).
  rewrite (length_bottom_rev_of D_even D_pos) in Hk'. fold D2 in Hk'.
  pose proof (top_below_center Hk). pose proof (bottom_rev_above_center Hk').
  lia.
Qed.

(** [all_eval], once [extra] is known. *)
Definition all_eval_of : list nat :=
  seq 0 (c + 1) ++ map (fun k => (D2 + 1) * D + k * D) (seq 0 (D2 - 1)).

Lemma all_eval_in_grid : Forall (fun p => p < D * D) all_eval_of.
Proof.
  pose proof (D_twice D_even D_pos) as H2. fold D2 in H2.
  pose proof center_in_grid as Hc.
  unfold all_eval_of. apply Forall_app. split; apply Forall_forall; intros p Hp.
  - apply in_seq in Hp. lia.
  - apply in_map_iff in Hp. destruct Hp as (k & <- & Hk). apply in_seq in Hk.
    rewrite <- Nat.mul_add_distr_r.
    apply Nat.mul_lt_mono_pos_r; lia.
Qed.

Lemma NoDup_all_eval : NoDup all_eval_of.
Proof.
  unfold all_eval_of. apply NoDup_app.
  - apply seq_NoDup.
  - apply Injective_map_NoDup; [|apply seq_NoDup].
    intros k k' E. apply Nat.add_cancel_l, Nat.mul_cancel_r in E; lia.
  - intros p Hp Hq. apply in_seq in Hp.
    apply in_map_iff in Hq. destruct Hq as (k & <- & _).
    unfold c in Hp. rewrite Nat.mul_add_distr_r in Hp.
    pose proof (D_twice D_even D_pos) as H2. fold D2 in H2. lia.
Qed.

Lemma nth_all_eval (k : nat) : k <= c -> nth k all_eval_of 0 = k.
Proof.
  intros Hk. unfold all_eval_of.
  rewrite app_nth1 by (rewrite length_seq; lia).
  rewrite seq_nth by lia. reflexivity.
Qed.

Lemma length_all_eval : c < length all_eval_of.
Proof. unfold all_eval_of. rewrite length_app, length_seq. lia. Qed.

End IndexRanges.

Lemma mapM_map {A B X} (g : A -> result B) (a : X -> A) (l : list X) :
  mapM g (map a l) = mapM (fun x => g (a x)) l.
Proof.
  induction l as [|x l IH]; simpl; [reflexivity|].
  destruct (g (a x)); simpl; [|reflexivity]. rewrite IH. reflexivity.
Qed.

Lemma FTSliceDecoder_init_arrays (in_dim D nlayers hidden_dim : nat)
      (dec : FTSliceDecoder) :
  Nat.even D = true ->
  FTSliceDecoder_init in_dim D nlayers hidden_dim = Ok dec ->
  0 < D
  /\ top dec = top_of D
  /\ bottom_rev dec = bottom_rev_of D
  /\ all_eval dec = all_eval_of D.
Proof.
  intros Hev E.
  destruct (Nat.eq_dec D 0) as [->|HD0];
    [rewrite FTSliceDecoder_init_zero in E; discriminate|].
  assert (HD : 0 < D) by lia.
  destruct (FTSliceDecoder_init_ok in_dim nlayers hidden_dim HD)
    as (dec' & E' & Ht & Hb & Hc & Ha & Hx & _).
  rewrite E in E'. injection E' as <-.
  repeat split; try assumption.
  rewrite Ha, Hc. rewrite (extra_values Hev HD) in Hx. injection Hx as <-.
  unfold all_eval_of, Np.arange. rewrite Nat.sub_0_r. reflexivity.
Qed.

(* ================================================================= *)
(** ** [forward]: the image it assembles *)

Section ForwardFacts.

Context {F : Type} {SF : Scalar F}.
Variable f : list F -> F * F.
Variables (in_dim D nlayers hidden_dim : nat) (dec : FTSliceDecoder).
Hypothesis D_even : Nat.even D = true.
Hypothesis built : FTSliceDecoder_init in_dim D nlayers hidden_dim = Ok dec.

(** [lattice[..., all_eval, :]] for one image *)
Definition evaluated_points (pts : list (list F)) : list (list F) :=
  map (fun i => nth i pts []) (all_eval dec).

(** [top_half] for one image *)
Definition top_half_of (pts : list (list F)) : list (F * F) :=
  map (decoded f) (evaluated_points pts).

(** [x * torch.tensor([1., -1.])] *)
Definition times_1_m1 (px : F * F) : F * F :=
  (smul (fst px) sone, smul (snd px) (sopp sone)).

Definition mirrored_of (pts : list (list F)) : list (F * F) :=
  map times_1_m1
      (map (fun i => nth i (top_half_of pts) (szero, szero)) (top dec)).

Definition image_of (pts : list (list F)) : list (option (F * F)) :=
  scattered (bottom_rev dec) (mirrored_of pts)
    (scattered (all_eval dec) (top_half_of pts) (repeat None (length pts))).

Lemma times_1_m1_conj (px : F * F) : times_1_m1 px = (fst px, sopp (snd px)).
Proof. unfold times_1_m1. rewrite smul_one, smul_minus_one. reflexivity. Qed.

Lemma evaluated_points_spatial (t : list (list (list F))) :
  spatial t -> Forall (fun pts => length pts = D * D) t ->
  spatial (map evaluated_points t).
Proof.
  destruct (@FTSliceDecoder_init_arrays in_dim D nlayers hidden_dim dec D_even built)
    as (HD & _ & _ & Ha).
  intros Hsp Hlen. unfold spatial. apply Forall_map.
  apply Forall_forall. intros pts Hpts.
  unfold spatial in Hsp. rewrite Forall_forall in Hsp, Hlen.
  specialize (Hsp pts Hpts). specialize (Hlen pts Hpts).
  unfold evaluated_points. apply Forall_map. rewrite Ha.
  eapply Forall_impl; [|apply (@all_eval_in_grid D D_even HD)].
  intros i Hi. cbv beta in *. rewrite Forall_forall in Hsp.
  apply Hsp. apply nth_In. rewrite Hlen. exact Hi.
Qed.

Lemma forward_spec (s : store) (l : loc) (t : list (list (list F))) :
  nth_error s l = Some t ->
  spatial t ->
  Forall (fun pts => length pts = D * D) t ->
  forward f dec l s
  = Ok (map image_of t,
        update_nth (length s)
          (map (map flipped) (map evaluated_points t))
          (s ++ [map evaluated_points t])).
Proof.
  intros Hl Hsp Hlen.
  destruct (@FTSliceDecoder_init_arrays in_dim D nlayers hidden_dim dec D_even built)
    as (HD & Ht & Hb & Ha).
  pose proof (@all_eval_in_grid D D_even HD) as Hgrid. rewrite <- Ha in Hgrid.
  unfold forward, mbind, load, lift, alloc, mret. rewrite Hl.
  (* lattice[..., all_eval, :] *)
  rewrite (@mapM_total _ _ (gather (all_eval dec)) evaluated_points).
  2:{ eapply Forall_impl; [|exact Hlen]. intros pts Hpts. cbv beta.
      apply gather_total. rewrite Hpts. exact Hgrid. }
  (* self.decode *)
  match goal with
  | |- context [decode f ?l' ?s'] =>
      rewrite (@decode_spec F SF f s' l' (map evaluated_points t))
  end.
  2:{ rewrite nth_error_app2, Nat.sub_diag by lia. reflexivity. }
  2:{ apply evaluated_points_spatial; assumption. }
  (* image[..., all_eval, :] = top_half *)
  rewrite map_map. fold top_half_of.
  change (map (fun x => map (decoded f) (evaluated_points x)) t)
    with (map top_half_of t).
  rewrite zipM_map.
  rewrite (@mapM_total _ _ _
             (fun pts => scattered (all_eval dec) (top_half_of pts)
                           (repeat None (length pts)))).
  2:{ eapply Forall_impl; [|exact Hlen]. intros pts Hpts. cbv beta.
      apply scatter_total.
      - unfold top_half_of, evaluated_points. rewrite !length_map. reflexivity.
      - rewrite repeat_length, Hpts. exact Hgrid. }
  (* top_half[..., top, :] * [1, -1] *)
  rewrite mapM_map.
  rewrite (@mapM_total _ _ _ mirrored_of).
  2:{ apply Forall_forall. intros pts _. cbv beta. unfold pixel.
      rewrite (@gather_total _ (top dec) (top_half_of pts) (szero, szero));
        [reflexivity|].
      apply Forall_nth. intros k d Hk.
      rewrite Ht, (@length_top_of D D_even HD) in Hk.
      rewrite (nth_indep _ d 0)
        by (rewrite Ht, (@length_top_of D D_even HD); exact Hk).
      unfold top_half_of, evaluated_points. rewrite !length_map, Ha, Ht.
      pose proof (@top_below_center D D_even HD k Hk).
      pose proof (@length_all_eval D HD). lia. }
  (* image[..., bottom_rev, :] = ... *)
  rewrite zipM_map.
  rewrite (@mapM_total _ _ _ image_of); [reflexivity|].
  eapply Forall_impl; [|exact Hlen]. intros pts Hpts. cbv beta.
  apply scatter_total.
  - unfold mirrored_of. rewrite !length_map, Ht, Hb.
    rewrite (@length_top_of D D_even HD), (@length_bottom_rev_of D D_even HD).
    reflexivity.
  - rewrite length_scattered, repeat_length, Hpts, Hb.
    apply Forall_nth. intros k d Hk.
    rewrite (@length_bottom_rev_of D D_even HD) in Hk.
    rewrite (nth_indep _ d 0)
      by (rewrite (@length_bottom_rev_of D D_even HD); exact Hk).
    apply (@bottom_rev_above_center D D_even HD k Hk).
Qed.

End ForwardFacts.

(** C2: for every even [D] for which the constructor returns and for every
    decoder function [f], [forward] on a lattice of [D * D] points per image
    returns an image in which, for every [i] in the range of the index
    arrays, the pixel at [bottom_rev[i]] is [(real, -imag)] of the pixel at
    [top[i]].  The caller's lattice buffer is left as it was: [decode] works
    on the copy made by the indexing. *)
Theorem forward_conjugate_symmetric
  {F : Type} {SF : Scalar F} (f : list F -> F * F)
  (in_dim D nlayers hidden_dim : nat) (dec : FTSliceDecoder)
  (s : store) (l : loc) (t : list (list (list F))) :
  Nat.even D = true ->
  FTSliceDecoder_init in_dim D nlayers hidden_dim = Ok dec ->
  nth_error s l = Some t ->
  spatial t ->
  Forall (fun pts => length pts = D * D) t ->
  exists img s',
    forward f dec l s = Ok (img, s')
    /\ length img = length t
    /\ nth_error s' l = Some t
    /\ forall b im, nth_error img b = Some im ->
         length im = D * D
         /\ forall i, i < length (top dec) ->
              exists re imv,
                nth_error im (nth i (top dec) 0) = Some (Some (re, imv))
                /\ nth_error im (nth i (bottom_rev dec) 0)
                   = Some (Some (re, sopp imv)).
Proof.
  intros Hev Hbuilt Hl Hsp Hlen.
  destruct (@FTSliceDecoder_init_arrays in_dim D nlayers hidden_dim dec
              Hev Hbuilt) as (HD & Ht & Hb & Ha).
  assert (Hls : l < length s) by (apply nth_error_Some; congruence).
  eexists _, _.
  split; [apply (@forward_spec F SF f in_dim D nlayers hidden_dim dec
                   Hev Hbuilt s l t Hl Hsp Hlen)|].
  split; [apply length_map|].
  split.
  { rewrite nth_error_update_nth_neq by lia.
    rewrite nth_error_app1 by exact Hls. exact Hl. }
  intros b im Hb_im.
  rewrite nth_error_map in Hb_im.
  destruct (nth_error t b) as [pts|] eqn:Epts; [|discriminate].
  injection Hb_im as <-.
  assert (Hpts : length pts = D * D).
  { rewrite Forall_forall in Hlen. apply Hlen.
    eapply nth_error_In. exact Epts. }
  unfold image_of.
  split; [rewrite !length_scattered, repeat_length; exact Hpts|].
  intros i Hi.
  rewrite Ht, (@length_top_of D Hev HD) in Hi.
  pose proof (@top_below_center D Hev HD i Hi) as Htop.
  pose proof (@length_all_eval D HD) as Hall.
  set (d0 := (szero, szero) : F * F).
  set (k0 := nth i (top dec) 0).
  assert (Ek0 : k0 = nth i (top_of D) 0) by (unfold k0; rewrite Ht; reflexivity).
  assert (Hgrid : Forall (fun p => p < length (repeat (@None (F * F)) (length pts)))
                         (all_eval dec)).
  { rewrite repeat_length, Hpts, Ha. apply (@all_eval_in_grid D Hev HD). }
  exists (fst (nth k0 (top_half_of f dec pts) d0)),
         (snd (nth k0 (top_half_of f dec pts) d0)).
  split.
  - rewrite scattered_other
      by (rewrite Hb, Ek0; apply (@top_not_in_bottom_rev D Hev HD i Hi)).
    assert (Eall : nth k0 (all_eval dec) 0 = k0)
      by (rewrite Ha; apply (@nth_all_eval D HD); lia).
    rewrite <- Eall at 1.
    rewrite (@scattered_at _ (all_eval dec) (top_half_of f dec pts) _ k0 d0).
    + rewrite <- surjective_pairing. reflexivity.
    + rewrite Ha. apply (@NoDup_all_eval D Hev HD).
    + unfold top_half_of, evaluated_points. rewrite !length_map. reflexivity.
    + exact Hgrid.
    + rewrite Ha. lia.
  - rewrite (@scattered_at _ (bottom_rev dec) (mirrored_of f dec pts) _ i
               (times_1_m1 (nth 0 (top_half_of f dec pts) d0))).
    + unfold mirrored_of.
      rewrite (map_nth times_1_m1).
      rewrite (map_nth (fun j => nth j (top_half_of f dec pts) d0)).
      fold k0. rewrite times_1_m1_conj. reflexivity.
    + rewrite Hb. apply (@NoDup_bottom_rev D Hev HD).
    + unfold mirrored_of. rewrite !length_map, Ht, Hb.
      rewrite (@length_top_of D Hev HD), (@length_bottom_rev_of D Hev HD).
      reflexivity.
    + rewrite length_scattered, repeat_length, Hpts, Hb.
      apply Forall_nth. intros k d Hk.
      rewrite (@length_bottom_rev_of D Hev HD) in Hk.
      rewrite (nth_indep _ d 0)
        by (rewrite (@length_bottom_rev_of D Hev HD); exact Hk).
      apply (@bottom_rev_above_center D Hev HD k Hk).
    + rewrite Hb, (@length_bottom_rev_of D Hev HD). exact Hi.
Qed.

Definition sample_lattice : list (list Z) :=
  map (fun i => [Z.of_nat (i mod 4) - 2; Z.of_nat (i / 4) - 2;
                 Z.of_nat (i mod 3) - 1]%Z) (seq 0 16).

Lemma forward_conjugate_symmetric_witness :
  exists dec img s',
    FTSliceDecoder_init 3 4 1 4 = Ok dec
    /\ forward sample_decoder dec 0 [[sample_lattice]] = Ok (img, s')
    /\ nth_error s' 0 = Some [sample_lattice].
Proof.
  destruct (FTSliceDecoder_init_ok 3 1 4 (D := 4) ltac:(lia)) as (dec & E & _).
  destruct (@forward_conjugate_symmetric Z Z_Scalar sample_decoder
              3 4 1 4 dec [[sample_lattice]] 0 [sample_lattice])
    as (img & s' & Hf & _ & Hs & _).
  - reflexivity.
  - exact E.
  - reflexivity.
  - repeat constructor.
  - repeat constructor.
  - exists dec, img, s'. repeat split; assumption.
Defined.

(* ================================================================= *)
(** ** [translate]: zero shifts and sums of shifts *)

Module TranslateFacts.

Import Translate.
Local Open Scope R_scope.

(** The image of one batch element after one shift. *)
Definition shifted (coords : list pair2) (tk : pair2) (im : list pair2)
  : list pair2 :=
  map (shift_pixel tk) (combine im coords).

Lemma tfilt_zero (c : pair2) : tfilt c (0, 0) = 0.
Proof. unfold tfilt. simpl. ring. Qed.

Lemma tfilt_add (c s1 s2 : pair2) :
  tfilt c (add_shift s1 s2) = tfilt c s1 + tfilt c s2.
Proof. unfold tfilt, add_shift. simpl. ring. Qed.

Lemma shift_pixel_zero (px c : pair2) : shift_pixel (0, 0) (px, c) = px.
Proof.
  unfold shift_pixel. simpl. rewrite tfilt_zero, cos_0, sin_0.
  destruct px as [re im]. simpl. f_equal; ring.
Qed.

Lemma shift_pixel_twice (px c s1 s2 : pair2) :
  shift_pixel s2 (shift_pixel s1 (px, c), c)
  = shift_pixel (add_shift s1 s2) (px, c).
Proof.
  unfold shift_pixel. cbn [fst snd].
  rewrite tfilt_add, cos_plus, sin_plus. f_equal; ring.
Qed.

Lemma length_shifted (coords : list pair2) (tk : pair2) (im : list pair2) :
  length im = length coords -> length (shifted coords tk im) = length coords.
Proof.
  intros H. unfold shifted. rewrite length_map, length_combine, H.
  apply Nat.min_id.
Qed.

Lemma shifted_zero (coords im : list pair2) :
  length im = length coords -> shifted coords (0, 0) im = im.
Proof.
  unfold shifted. revert coords.
  induction im as [|px im IH]; intros [|c coords] H; simpl in *;
    try discriminate; [reflexivity|].
  rewrite shift_pixel_zero. f_equal. apply IH. lia.
Qed.

Lemma shifted_twice (coords : list pair2) (s1 s2 : pair2) (im : list pair2) :
  length im = length coords ->
  shifted coords s2 (shifted coords s1 im) = shifted coords (add_shift s1 s2) im.
Proof.
  unfold shifted. revert coords.
  induction im as [|px im IH]; intros [|c coords] H; simpl in *;
    try discriminate; [reflexivity|].
  rewrite shift_pixel_twice. f_equal. apply IH. lia.
Qed.

Lemma broadcast_same {A B} (la : list A) (lb : list B) :
  length la = length lb -> broadcast la lb = Ok (combine la lb).
Proof.
  intros H. unfold broadcast. rewrite H, Nat.eqb_refl. reflexivity.
Qed.

Lemma translate_one_total (coords im tb : list pair2) :
  length im = length coords ->
  translate_one coords im tb = Ok (map (fun tk => shifted coords tk im) tb).
Proof.
  intros H. unfold translate_one. rewrite (broadcast_same _ _ H). reflexivity.
Qed.

(** What [translate] returns on tensors whose shapes agree. *)
Lemma translate_total (coords : list pair2) (img : list (list pair2))
      (t : list (list pair2)) :
  length img = length t ->
  Forall (fun im => length im = length coords) img ->
  translate coords img t
  = Ok (map (fun it => map (fun tk => shifted coords tk (fst it)) (snd it))
            (combine img t)).
Proof.
  intros Hb Hn. unfold translate. rewrite (broadcast_same _ _ Hb).
  cbn [rbind]. apply mapM_total.
  apply Forall_forall. intros [im tb] Hin. cbn [fst snd].
  apply translate_one_total.
  rewrite Forall_forall in Hn. apply Hn.
  eapply in_combine_l. exact Hin.
Qed.

Lemma combine_map_r {A B C} (g : B -> C) (la : list A) (lb : list B) :
  combine la (map g lb) = map (fun ab => (fst ab, g (snd ab))) (combine la lb).
Proof.
  revert lb; induction la as [|a la IH]; intros [|b lb]; simpl;
    try reflexivity.
  f_equal. apply IH.
Qed.

Lemma combine_map_self {A B} (g : A -> B) (l : list A) :
  combine l (map g l) = map (fun a => (a, g a)) l.
Proof. induction l as [|a l IH]; simpl; [reflexivity|]. f_equal. exact IH. Qed.

Lemma concat_map_singleton {A B} (h : A -> B) (l : list A) :
  concat (map (fun a => [h a]) l) = map h l.
Proof. induction l as [|a l IH]; simpl; [reflexivity|]. f_equal. exact IH. Qed.

(** With one shift per batch element. *)
Lemma translate_one_shift_each (coords : list pair2) (img : list (list pair2))
      (s : list pair2) :
  length s = length img ->
  Forall (fun im => length im = length coords) img ->
  translate coords img (one_shift_each s)
  = Ok (map (fun it => [shifted coords (snd it) (fst it)]) (combine img s)).
Proof.
  intros Hs Hn. unfold one_shift_each.
  rewrite translate_total; [|rewrite length_map; lia|exact Hn].
  rewrite combine_map_r, map_map. reflexivity.
Qed.

Lemma shifted_batch_twice (coords : list pair2) (img : list (list pair2))
      (s1 s2 : list pair2) :
  length s1 = length img -> length s2 = length img ->
  Forall (fun im => length im = length coords) img ->
  map (fun it => [shifted coords (snd it) (fst it)])
      (combine (map (fun it => shifted coords (snd it) (fst it))
                    (combine img s1)) s2)
  = map (fun it => [shifted coords (snd it) (fst it)])
        (combine img (add_shifts s1 s2)).
Proof.
  unfold add_shifts. revert s1 s2.
  induction img as [|im img IH]; intros [|a s1] [|b s2] H1 H2 Hn;
    simpl in *; try discriminate; [reflexivity|].
  inversion Hn as [|? ? Him Hrest]; subst.
  rewrite (@shifted_twice coords a b im Him). f_equal.
  apply IH; [lia | lia | exact Hrest].
Qed.

(** C7: a zero shift returns every pixel of every image unchanged, once per
    requested shift (the output has the added shift axis); arithmetic is
    exact over the reals. *)
Theorem translate_zero_shift (coords : list pair2) (img : list (list pair2))
        (T : nat) :
  Forall (fun im => length im = length coords) img ->
  translate coords img (map (fun _ => repeat (0, 0) T) img)
  = Ok (map (fun im => repeat im T) img).
Proof.
  intros Hn.
  rewrite translate_total; [|rewrite length_map; reflexivity|exact Hn].
  rewrite combine_map_self, map_map. f_equal.
  apply map_ext_in. intros im Him. cbn [fst snd].
  rewrite map_repeat. f_equal. apply shifted_zero.
  rewrite Forall_forall in Hn. apply Hn, Him.
Qed.

(** C6: translating by [s1] and then translating the result by [s2] gives
    what one translation by [s1 + s2] gives, and that translation returns;
    arithmetic is exact over the reals. *)
Theorem translate_additive (coords : list pair2) (img : list (list pair2))
        (s1 s2 : list pair2) :
  length s1 = length img -> length s2 = length img ->
  Forall (fun im => length im = length coords) img ->
  (r1 <- translate coords img (one_shift_each s1) ;;
   translate coords (view_images r1) (one_shift_each s2))
  = translate coords img (one_shift_each (add_shifts s1 s2))
  /\ exists out,
       translate coords img (one_shift_each (add_shifts s1 s2)) = Ok out.
Proof.
  intros H1 H2 Hn.
  assert (H12 : length (add_shifts s1 s2) = length img).
  { unfold add_shifts. rewrite length_map, length_combine. lia. }
  rewrite (@translate_one_shift_each coords img (add_shifts s1 s2) H12 Hn).
  split; [|eexists; reflexivity].
  rewrite (@translate_one_shift_each coords img s1 H1 Hn). cbn [rbind].
  unfold view_images. rewrite concat_map_singleton.
  rewrite translate_one_shift_each.
  - f_equal. apply shifted_batch_twice; assumption.
  - rewrite length_map, length_combine. lia.
  - apply Forall_map. apply Forall_forall. intros [im a] Hin. cbn [fst snd].
    apply length_shifted. rewrite Forall_forall in Hn. apply Hn.
    eapply in_combine_l. exact Hin.
Qed.

Lemma translate_zero_shift_witness :
  translate [(1, 0); (0, 1)] [[(2, 3); (4, 5)]]
            (map (fun _ => repeat (0, 0) 1%nat) [[(2, 3); (4, 5)]])
  = Ok [[[(2, 3); (4, 5)]]].
Proof.
  apply (@translate_zero_shift [(1, 0); (0, 1)] [[(2, 3); (4, 5)]] 1).
  repeat constructor.
Defined.

Lemma translate_additive_witness :
  exists out,
    translate [(1, 0); (0, 1)] [[(2, 3); (4, 5)]]
              (one_shift_each (add_shifts [(1, 2)] [(3, 4)])) = Ok out
    /\ (r1 <- translate [(1, 0); (0, 1)] [[(2, 3); (4, 5)]]
                        (one_shift_each [(1, 2)]) ;;
        translate [(1, 0); (0, 1)] (view_images r1) (one_shift_each [(3, 4)]))
       = Ok out.
Proof.
  destruct (@translate_additive [(1, 0); (0, 1)] [[(2, 3); (4, 5)]]
              [(1, 2)] [(3, 4)]) as [Heq [out Hout]].
  - reflexivity.
  - reflexivity.
  - repeat constructor.
  - exists out. split; [exact Hout|]. rewrite Heq. exact Hout.
Defined.

End TranslateFacts.

(* ================================================================= *)
(** ** [HetOnlyVAE.__init__]: the convolutional encoder and the image size *)

(** C10: with [encode_mode = 'conv'] and a lattice whose [D] is not 64 the
    constructor raises at once, with the message of the assertion; no model
    is built. *)
Theorem HetOnlyVAE_conv_requires_64
  (lattice : Lattice)
  (in_dim encode_layers encode_dim decode_layers decode_dim z_dim : nat) :
  lattice_D lattice <> 64 ->
  HetOnlyVAE_init lattice in_dim encode_layers encode_dim
                  decode_layers decode_dim z_dim "conv"
  = Raise (AssertionError "CNN encoder is hard-coded for 64x64 images").
Proof.
  intros HD. unfold HetOnlyVAE_init.
  change (String.eqb "conv" "conv") with true. cbv iota.
  unfold assert.
  destruct (Nat.eqb_spec (lattice_D lattice) 64) as [E|_]; [contradiction|].
  reflexivity.
Qed.

Lemma HetOnlyVAE_conv_requires_64_witness :
  HetOnlyVAE_init (mkLattice 32) 1024 3 16 3 16 1 "conv"
  = Raise (AssertionError "CNN encoder is hard-coded for 64x64 images").
Proof.
  apply (@HetOnlyVAE_conv_requires_64 (mkLattice 32) 1024 3 16 3 16 1).
  simpl. lia.
Defined.

(** With [D = 64] the same call builds the model. *)
Lemma HetOnlyVAE_conv_64_builds
  (in_dim encode_layers encode_dim decode_layers decode_dim z_dim : nat) :
  exists vae,
    HetOnlyVAE_init (mkLattice 64) in_dim encode_layers encode_dim
                    decode_layers decode_dim z_dim "conv" = Ok vae
    /\ vae_encoder vae = ConvEncoder encode_dim (z_dim * 2).
Proof.
  unfold HetOnlyVAE_init.
  change (String.eqb "conv" "conv") with true. cbv iota.
  destruct (@FTSliceDecoder_init_ok (3 + z_dim) 64 decode_layers decode_dim)
    as (dec & E & _); [lia|].
  cbn [lattice_D assert Nat.eqb rbind]. rewrite E. cbn [rbind].
  eexists. split; reflexivity.
Qed.

(** The decoder is declared with input dimension [3 + z_dim]. *)
Definition first_in_dim (layers : list layer) : option nat :=
  match layers with
  | Linear nin _ :: _ => Some nin
  | ResidLinear nin _ :: _ => Some nin
  | _ => None
  end.

Lemma HetOnlyVAE_decoder_in_dim
  (lattice : Lattice)
  (in_dim encode_layers encode_dim decode_layers decode_dim z_dim : nat)
  (encode_mode : string) (vae : HetOnlyVAE) :
  HetOnlyVAE_init lattice in_dim encode_layers encode_dim
                  decode_layers decode_dim z_dim encode_mode = Ok vae ->
  first_in_dim (decoder (vae_decoder vae)) = Some (3 + z_dim).
Proof.
  unfold HetOnlyVAE_init. intros E.
  match type of E with
  | rbind ?enc _ = _ => destruct enc as [enc'|]; [|discriminate]
  end.
  cbn [rbind] in E. unfold FTSliceDecoder_init in E.
  destruct (Np.arange_step _ _ _); [|discriminate].
  cbn [rbind] in E. injection E as <-. cbn [vae_decoder decoder].
  unfold ResidLinearMLP. cbn [app first_in_dim].
  destruct (_ =? decode_dim); reflexivity.
Qed.

(* ================================================================= *)
(** ** [HetOnlyVAE.cat_z] and the length of the latent vector *)

Lemma numel_ones (n k : nat) : Torch.numel (n :: repeat 1 k) = n.
Proof.
  simpl. induction k as [|k IH]; simpl; [lia|].
  rewrite Nat.add_0_r. exact IH.
Qed.

(** C8 fails on the code: a latent batch [z] of shape [B x z_dim] with
    [z_dim >= 2] makes [cat_z] raise, whatever the coordinates; when the
    coordinates pass the assertion the error comes from [z.view], which
    asks for [B] entries where [z] has [B * z_dim]. *)
Theorem cat_z_raises_for_long_latent
  {A : Type} (coords z : tensor A) (B zd : nat) :
  shape z = [B; zd] ->
  Torch.well_formed z ->
  0 < B -> 2 <= zd ->
  exists e,
    cat_z coords z = Raise e
    /\ (Torch.last_dim coords = Ok 3 ->
        e = RuntimeError "shape is invalid for input size").
Proof.
  intros Hsh Hwf HB Hzd. unfold cat_z.
  destruct (Torch.last_dim coords) as [d|e]; cbn [rbind];
    [|exists e; split; [reflexivity|discriminate]].
  unfold assert.
  destruct (Nat.eqb_spec d 3) as [->|Hd]; cbn [rbind].
  2:{ eexists. split; [reflexivity|]. intros E. injection E as E. contradiction. }
  unfold Torch.size0, Torch.view. rewrite Hsh. cbn [rbind].
  rewrite numel_ones.
  unfold Torch.well_formed in Hwf. rewrite Hsh in Hwf. rewrite Hwf.
  simpl Torch.numel. rewrite Nat.mul_1_r.
  destruct (Nat.eqb_spec B (B * zd)) as [E|_]; [nia|].
  cbn [rbind]. eexists. split; [reflexivity|]. intros _. reflexivity.
Qed.

Lemma cat_z_raises_for_long_latent_witness :
  exists e,
    cat_z (mkTensor [1; 1; 3] [1; 2; 3]%Z) (mkTensor [1; 2] [7; 8]%Z) = Raise e
    /\ e = RuntimeError "shape is invalid for input size".
Proof.
  destruct (@cat_z_raises_for_long_latent Z
              (mkTensor [1; 1; 3] [1; 2; 3]%Z) (mkTensor [1; 2] [7; 8]%Z) 1 2)
    as (e & He & Hmsg).
  - reflexivity.
  - reflexivity.
  - lia.
  - lia.
  - exists e. split; [exact He|]. apply Hmsg. reflexivity.
Defined.

(** With [z_dim = 1] the latent value is appended to every coordinate. *)
Example cat_z_scalar_latent :
  cat_z (mkTensor [2; 2; 3] [1; 2; 3; 4; 5; 6; 7; 8; 9; 10; 11; 12]%Z)
        (mkTensor [2; 1] [100; 200]%Z)
  = Ok (mkTensor [2; 2; 4]
          [1; 2; 3; 100; 4; 5; 6; 100; 7; 8; 9; 200; 10; 11; 12; 200]%Z).
Proof. reflexivity. Qed.

(* ================================================================= *)
(** ** [sampleSO3] in evaluation mode *)

Section SO3Facts.

Context {F : Type} {SF : Scalar F}.
Variable expmap : tensor F -> result (tensor F).
Variable quaternions_to_SO3 : tensor F -> result (tensor F).

(** Evaluation mode does not look at the noise: two calls on the same
    inputs return the same pair. *)
Lemma sampleSO3_eval_deterministic (noise noise' : nat -> F)
      (z_mu z_std : tensor F) :
  sampleSO3 expmap quaternions_to_SO3 false noise z_mu z_std
  = sampleSO3 expmap quaternions_to_SO3 false noise' z_mu z_std.
Proof. reflexivity. Qed.

(** C1 fails on the code in its second half: in evaluation mode the first
    component returned is [z_mu] itself, the [B x 4] tensor of quaternion
    parameters, and not the [B x 3 x 3] tensor of rotation matrices that
    [quaternions_to_SO3] makes of it (which the training branch uses). *)
Theorem sampleSO3_eval_returns_parameters
  (noise : nat -> F) (z_mu z_std R : tensor F) (B : nat) :
  shape z_mu = [B; 4] ->
  quaternions_to_SO3 z_mu = Ok R ->
  shape R = [B; 3; 3] ->
  sampleSO3 expmap quaternions_to_SO3 false noise z_mu z_std = Ok (z_mu, z_std)
  /\ forall rot w,
       sampleSO3 expmap quaternions_to_SO3 false noise z_mu z_std
       = Ok (rot, w) ->
       shape rot <> shape R /\ rot <> R.
Proof.
  intros Hmu HR HshR. split; [reflexivity|].
  intros rot w E. cbn in E. injection E as <- <-.
  assert (Hne : shape z_mu <> shape R) by (rewrite Hmu, HshR; discriminate).
  split; [exact Hne|]. intros ->. apply Hne. reflexivity.
Qed.

End SO3Facts.

(** The rotation matrices of a batch of unit quaternions [(w, x, y, z)],
    to instantiate the parameter in examples. *)
Definition rotation_of_unit_quaternion (q : list Z) : list Z :=
  match q with
  | [w; x; y; z] =>
      [1 - 2 * (y * y + z * z); 2 * (x * y - z * w); 2 * (x * z + y * w);
       2 * (x * y + z * w); 1 - 2 * (x * x + z * z); 2 * (y * z - x * w);
       2 * (x * z - y * w); 2 * (y * z + x * w); 1 - 2 * (x * x + y * y)]%Z
  | _ => []
  end.

Definition sample_quaternions_to_SO3 (q : tensor Z) : result (tensor Z) :=
  match shape q with
  | [B; 4] =>
      Ok (mkTensor [B; 3; 3]
            (concat (map rotation_of_unit_quaternion
                         (Torch.chunks B 4 (data q)))))
  | _ => Raise (RuntimeError "expected B x 4")
  end.

Lemma sampleSO3_eval_returns_parameters_witness :
  sampleSO3 (fun w => Ok w) sample_quaternions_to_SO3 false (fun _ => 0%Z)
            (mkTensor [1; 4] [1; 0; 0; 0]%Z) (mkTensor [1; 3] [1; 1; 1]%Z)
  = Ok (mkTensor [1; 4] [1; 0; 0; 0]%Z, mkTensor [1; 3] [1; 1; 1]%Z)
  /\ sample_quaternions_to_SO3 (mkTensor [1; 4] [1; 0; 0; 0]%Z)
     = Ok (mkTensor [1; 3; 3] [1; 0; 0; 0; 1; 0; 0; 0; 1]%Z).
Proof.
  split; [|reflexivity].
  apply (@sampleSO3_eval_returns_parameters Z Z_Scalar (fun w => Ok w)
           sample_quaternions_to_SO3 (fun _ => 0%Z)
           (mkTensor [1; 4] [1; 0; 0; 0]%Z) (mkTensor [1; 3] [1; 1; 1]%Z)
           (mkTensor [1; 3; 3] [1; 0; 0; 0; 1; 0; 0; 0; 1]%Z) 1);
    reflexivity.
Defined.

(* ================================================================= *)
(** ** Further facts on [cat_z] and [sampleSO3] *)

(** Whenever [cat_z] returns, the trailing dimension of its result is 4:
    three coordinates and one latent entry, whatever the shape of [z]. *)
Lemma cat_z_trailing_dim {A : Type} (coords z out : tensor A) :
  cat_z coords z = Ok out -> Torch.last_dim out = Ok 4.
Proof.
  unfold cat_z, Torch.last_dim, assert.
  destruct (rev (shape coords)) as [|d ra] eqn:Hc; cbn [rbind];
    [discriminate|].
  destruct (Nat.eqb_spec d 3) as [->|_]; cbn [rbind]; [|discriminate].
  destruct (Torch.size0 z) as [z0|]; cbn [rbind]; [|discriminate].
  destruct (Torch.view z _) as [z1|]; cbn [rbind]; [|discriminate].
  unfold Torch.expand.
  destruct (_ <? _); [discriminate|].
  destruct (Torch.expand_data _ _ _) as [dz|]; cbn [rbind]; [|discriminate].
  unfold Torch.cat_last. cbn [shape data].
  rewrite Hc, rev_app_distr. cbn [rev app].
  destruct (Torch.list_eqb _ _); [|discriminate].
  intros E. injection E as <-. cbn [shape].
  rewrite rev_app_distr. reflexivity.
Qed.

Section SO3Training.

Context {F : Type} {SF : Scalar F}.
Variable expmap : tensor F -> result (tensor F).
Variable quaternions_to_SO3 : tensor F -> result (tensor F).

(** The training branch converts the quaternion parameters before it
    composes them with the sampled rotation. *)
Lemma sampleSO3_training_converts (noise : nat -> F)
      (z_mu z_std w_eps rot_eps R : tensor F) :
  Torch.mul (Torch.randn_like noise z_std) z_std = Ok w_eps ->
  expmap w_eps = Ok rot_eps ->
  quaternions_to_SO3 z_mu = Ok R ->
  sampleSO3 expmap quaternions_to_SO3 true noise z_mu z_std
  = (rot_sampled <- Torch.matmul R rot_eps ;; Ok (rot_sampled, w_eps)).
Proof.
  intros Hw He HR. unfold sampleSO3. cbn [negb].
  rewrite Hw. cbn [rbind]. rewrite He. cbn [rbind]. rewrite HR. reflexivity.
Qed.

End SO3Training.

(* ================================================================= *)
(** ** Every pixel is written once, for every even size *)

Section IndexCover.

Variable D : nat.
Hypothesis D_even : Nat.even D = true.
Hypothesis D_pos : 0 < D.

Lemma length_all_eval_of :
  length (all_eval_of D) = half D * D + half D + half D.
Proof.
  pose proof (D2_pos D_even D_pos) as Hp.
  unfold all_eval_of. rewrite length_app, length_seq, length_map, length_seq.
  lia.
Qed.

Lemma length_cover : length (all_eval_of D ++ bottom_rev_of D) = D * D.
Proof.
  pose proof (D_twice D_even D_pos) as H2.
  pose proof (D2_pos D_even D_pos) as Hp.
  rewrite length_app, length_all_eval_of, (@length_bottom_rev_of D D_even D_pos).
  rewrite (@square_split D D_even D_pos).
  assert (E : half D * D = half D * (D - 2) + half D * 2).
  { rewrite <- Nat.mul_add_distr_l. f_equal. lia. }
  rewrite E. generalize (half D * (D - 2)). intros. lia.
Qed.

Lemma bottom_rev_in_grid : Forall (fun p => p < D * D) (bottom_rev_of D).
Proof.
  apply Forall_nth. intros k d Hk.
  rewrite (@length_bottom_rev_of D D_even D_pos) in Hk.
  rewrite (nth_indep _ d 0)
    by (rewrite (@length_bottom_rev_of D D_even D_pos); exact Hk).
  apply (@bottom_rev_above_center D D_even D_pos k Hk).
Qed.

Lemma all_eval_not_in_bottom_rev (p : nat) :
  In p (all_eval_of D) -> ~ In p (bottom_rev_of D).
Proof.
  intros Hp Hq.
  apply (In_nth _ _ 0) in Hq. destruct Hq as (k & Hk & E).
  rewrite (@length_bottom_rev_of D D_even D_pos) in Hk.
  unfold all_eval_of in Hp. apply in_app_or in Hp. destruct Hp as [Hp|Hp].
  - apply in_seq in Hp.
    pose proof (@bottom_rev_above_center D D_even D_pos k Hk). lia.
  - apply in_map_iff in Hp. destruct Hp as (m & Em & _).
    destruct (@top_bottom_rev_at D k D_even D_pos Hk)
      as (j & i & Hj & Hi & _ & Eb & _).
    rewrite Eb in E. rewrite <- Em, <- Nat.mul_add_distr_r in E.
    assert (Huniq : D - j = half D + 1 + m /\ D - i = 0)
      by (apply (@grid_coords_unique D); [lia | lia | lia]).
    lia.
Qed.

Lemma NoDup_cover : NoDup (all_eval_of D ++ bottom_rev_of D).
Proof.
  apply NoDup_app.
  - apply (@NoDup_all_eval D D_even D_pos).
  - apply (@NoDup_bottom_rev D D_even D_pos).
  - apply all_eval_not_in_bottom_rev.
Qed.

Lemma cover_in_grid (p : nat) :
  In p (all_eval_of D ++ bottom_rev_of D) <-> p < D * D.
Proof.
  split.
  - intros Hp. apply in_app_or in Hp. destruct Hp as [Hp|Hp].
    + pose proof (@all_eval_in_grid D D_even D_pos) as H.
      rewrite Forall_forall in H. apply H, Hp.
    + pose proof bottom_rev_in_grid as H.
      rewrite Forall_forall in H. apply H, Hp.
  - intros Hp.
    assert (Hincl : incl (seq 0 (D * D)) (all_eval_of D ++ bottom_rev_of D)).
    { apply NoDup_length_incl.
      - apply NoDup_cover.
      - rewrite length_seq, length_cover. lia.
      - intros q Hq. apply in_seq. split; [lia|]. simpl.
        apply in_app_or in Hq. destruct Hq as [Hq|Hq].
        + pose proof (@all_eval_in_grid D D_even D_pos) as H.
          rewrite Forall_forall in H. apply H, Hq.
        + pose proof bottom_rev_in_grid as H.
          rewrite Forall_forall in H. apply H, Hq. }
    apply Hincl. apply in_seq. lia.
Qed.

End IndexCover.

(** For every even [D] for which the constructor returns, [all_eval] and
    [bottom_rev] together hold every flattened pixel index of the [D x D]
    grid exactly once, and [top] and [bottom_rev] have [D/2 * (D-2)]
    entries. *)
Theorem index_completeness_even
  (in_dim D nlayers hidden_dim : nat) (dec : FTSliceDecoder) :
  Nat.even D = true ->
  FTSliceDecoder_init in_dim D nlayers hidden_dim = Ok dec ->
  index_completeness D (D / 2 * (D - 2)) dec.
Proof.
  intros Hev E.
  destruct (@FTSliceDecoder_init_arrays in_dim D nlayers hidden_dim dec Hev E)
    as (HD & Ht & Hb & Ha).
  unfold index_completeness. rewrite Ht, Hb, Ha.
  pose proof (@NoDup_cover D Hev HD) as Hnd.
  split; [|split; [|split; [|split]]].
  - intros p Hp. apply (NoDup_count_occ' Nat.eq_dec); [exact Hnd|].
    apply (@cover_in_grid D Hev HD). exact Hp.
  - apply (@length_cover D Hev HD).
  - exact Hnd.
  - apply (@length_top_of D Hev HD).
  - apply (@length_bottom_rev_of D Hev HD).
Qed.

Lemma index_completeness_even_witness :
  exists dec,
    FTSliceDecoder_init 3 4 1 4 = Ok dec /\ index_completeness 4 4 dec.
Proof.
  destruct (@FTSliceDecoder_init_ok 3 4 1 4 ltac:(lia)) as (dec & E & _).
  exists dec. split; [exact E|].
  apply (@index_completeness_even 3 4 1 4 dec eq_refl E).
Defined.




(* ================================================================= *)
(** ** More on [decode] *)

Lemma update_nth_twice {A} (i : nat) (x y : A) (l : list A) :
  update_nth i x (update_nth i y l) = update_nth i x l.
Proof.
  revert i; induction l as [|a l IH]; intros [|i]; simpl; try reflexivity.
  f_equal. apply IH.
Qed.

Lemma mapM_cases {A B} (g : A -> result B) (e : exn) (l : list A) :
  (forall a, (exists b, g a = Ok b) \/ g a = Raise e) ->
  (exists bs, mapM g l = Ok bs) \/ mapM g l = Raise e.
Proof.
  intros Hg. induction l as [|a l IH]; simpl; [left; eexists; reflexivity|].
  destruct (Hg a) as [[b ->]| ->]; [|right; reflexivity]. simpl.
  destruct IH as [[bs ->]| ->]; [left; eexists|right]; reflexivity.
Qed.

Lemma mapM_raises {A B} (g : A -> result B) (e : exn) (l : list A) :
  (forall a, (exists b, g a = Ok b) \/ g a = Raise e) ->
  Exists (fun a => g a = Raise e) l ->
  mapM g l = Raise e.
Proof.
  intros Hg Hex. induction Hex as [a l Ha|a l _ IH]; simpl.
  - rewrite Ha. reflexivity.
  - destruct (Hg a) as [[b ->]| ->]; [|reflexivity]. simpl.
    rewrite IH. reflexivity.
Qed.

Section DecodeMore.

Context {F : Type} {SF : Scalar F}.
Variable f : list F -> F * F.

Lemma zpos_negate_xyz (p : list F) :
  zpos p = true -> zpos (negate_xyz p) = false.
Proof.
  unfold zpos, negate_xyz.
  destruct p as [|x [|y [|z rest]]]; simpl; try discriminate.
  intros Hz. apply (@sgtz_opp _ _ z Hz).
Qed.

Lemma zpos_flipped (p : list F) : zpos (flipped p) = false.
Proof.
  unfold flipped. destruct (zpos p) eqn:Hz; [|exact Hz].
  apply zpos_negate_xyz, Hz.
Qed.

Lemma length_negate_xyz (p : list F) : length (negate_xyz p) = length p.
Proof.
  unfold negate_xyz. rewrite length_app, length_map.
  rewrite <- (firstn_skipn 3 p) at 3. rewrite length_app. reflexivity.
Qed.

Lemma length_flipped (p : list F) : length (flipped p) = length p.
Proof. unfold flipped. destruct (zpos p); [apply length_negate_xyz|reflexivity]. Qed.

Lemma flipped_flipped (p : list F) : flipped (flipped p) = flipped p.
Proof. unfold flipped at 1. rewrite zpos_flipped. reflexivity. Qed.

Lemma decoded_flipped (p : list F) : decoded f (flipped p) = f (flipped p).
Proof. unfold decoded. rewrite zpos_flipped. reflexivity. Qed.

Lemma spatial_flipped (t : list (list (list F))) :
  spatial t -> spatial (map (map flipped) t).
Proof.
  unfold spatial. intros Ht. apply Forall_map.
  eapply Forall_impl; [|exact Ht]. intros row Hrow. apply Forall_map.
  eapply Forall_impl; [|exact Hrow]. intros p Hp. cbv beta.
  rewrite length_flipped. exact Hp.
Qed.


(** Calling [decode] a second time on the same buffer does not repeat the
    first answer: the points that had [z > 0] are stored negated, so the
    second call evaluates the network at the same places but no longer
    negates the imaginary part.  The first result is the second one with
    the imaginary part negated at exactly those points; the second call
    leaves the store as it found it. *)
Theorem decode_twice_differs
  (s : store) (l : loc) (t : list (list (list F))) :
  nth_error s l = Some t ->
  spatial t ->
  exists r1 s1 r2,
    decode f l s = Ok (r1, s1)
    /\ decode f l s1 = Ok (r2, s1)
    /\ r2 = map (map (fun p => f (flipped p))) t
    /\ r1 = map (map (fun p => if zpos p
                               then (fst (f (flipped p)),
                                     sopp (snd (f (flipped p))))
                               else f (flipped p))) t.
Proof.
  intros Hl Ht.
  assert (Hlen : l < length s) by (apply nth_error_Some; congruence).
  eexists _, _, _.
  split; [apply (@decode_spec F SF f s l t Hl Ht)|].
  split.
  - rewrite (@decode_spec F SF f _ l (map (map flipped) t)).
    + rewrite update_nth_twice.
      replace (map (map flipped) (map (map flipped) t))
        with (map (map flipped) t); [reflexivity|].
      rewrite map_map. apply map_ext. intros row.
      rewrite map_map. apply map_ext. intros p.
      symmetry. apply flipped_flipped.
    + apply nth_error_update_nth_eq. exact Hlen.
    + apply spatial_flipped, Ht.
  - split.
    + rewrite map_map. apply map_ext. intros row.
      rewrite map_map. apply map_ext. intros p. apply decoded_flipped.
    + apply map_ext. intros row. apply map_ext. intros p.
      unfold decoded, flipped. destruct (zpos p); [|reflexivity].
      rewrite smul_minus_one. reflexivity.
Qed.

Lemma z_positive_cases (p : list F) :
  (exists b, z_positive p = Ok b) \/ z_positive p = Raise IndexError.
Proof.
  unfold z_positive. destruct (nth_error p 2); [left; eexists|right]; reflexivity.
Qed.

(** A lattice with a point of fewer than three coordinates makes [decode]
    raise [IndexError]. *)
Theorem decode_short_point
  (s : store) (l : loc) (t : list (list (list F))) :
  nth_error s l = Some t ->
  Exists (Exists (fun p => length p < 3)) t ->
  decode f l s = Raise IndexError.
Proof.
  intros Hl Hex. unfold decode, mbind, load, lift. rewrite Hl.
  rewrite (@mapM_raises _ _ (mapM z_positive) IndexError t); [reflexivity| |].
  - intros row. apply mapM_cases. apply z_positive_cases.
  - eapply Exists_impl; [|exact Hex]. intros row Hrow. cbv beta.
    apply mapM_raises; [apply z_positive_cases|].
    eapply Exists_impl; [|exact Hrow]. intros p Hp. cbv beta in *.
    unfold z_positive. destruct (nth_error p 2) eqn:E; [|reflexivity].
    assert (2 < length p) by (apply nth_error_Some; congruence). lia.
Qed.

End DecodeMore.


Lemma decode_twice_differs_witness :
  exists r1 s1 r2,
    decode sample_decoder 0 [[[[1; 2; 3]]]]%Z = Ok (r1, s1)
    /\ decode sample_decoder 0 s1 = Ok (r2, s1)
    /\ r2 = [[(-21, -2)]]%Z
    /\ r1 = [[(-21, 2)]]%Z.
Proof.
  destruct (@decode_twice_differs Z Z_Scalar sample_decoder
              [[[[1; 2; 3]]]]%Z 0 [[[1; 2; 3]]]%Z)
    as (r1 & s1 & r2 & H1 & H2 & E2 & E1).
  - reflexivity.
  - repeat constructor.
  - exists r1, s1, r2. repeat split; assumption.
Defined.

Lemma decode_short_point_witness :
  decode sample_decoder 0 [[[[1; 2]]]]%Z = Raise IndexError.
Proof.
  apply (@decode_short_point Z Z_Scalar sample_decoder
           [[[[1; 2]]]]%Z 0 [[[1; 2]]]%Z).
  - reflexivity.
  - repeat constructor.
Defined.

(* ================================================================= *)
(** ** More on [forward] *)

(** Every pixel of the image [forward] returns is written, and with what:
    a pixel listed in [all_eval] holds the value [decode] gives for the
    lattice point of that pixel, and any other pixel [p] holds
    [(real, -imag)] of the value for the point-reflected pixel
    [D*D + D - p]. *)
Theorem forward_every_pixel
  {F : Type} {SF : Scalar F} (f : list F -> F * F)
  (in_dim D nlayers hidden_dim : nat) (dec : FTSliceDecoder)
  (s : store) (l : loc) (t : list (list (list F))) :
  Nat.even D = true ->
  FTSliceDecoder_init in_dim D nlayers hidden_dim = Ok dec ->
  nth_error s l = Some t ->
  spatial t ->
  Forall (fun pts => length pts = D * D) t ->
  exists img s',
    forward f dec l s = Ok (img, s')
    /\ forall b pts, nth_error t b = Some pts ->
         exists im,
           nth_error img b = Some im
           /\ forall p, p < D * D ->
                (In p (all_eval dec) ->
                 nth_error im p = Some (Some (decoded f (nth p pts []))))
                /\ (~ In p (all_eval dec) ->
                    nth_error im p
                    = Some (Some
                        (fst (decoded f (nth (D * D + D - p) pts [])),
                         sopp (snd (decoded f (nth (D * D + D - p) pts [])))))).
Proof.
  intros Hev Hbuilt Hl Hsp Hlen.
  destruct (@FTSliceDecoder_init_arrays in_dim D nlayers hidden_dim dec
              Hev Hbuilt) as (HD & Ht & Hb & Ha).
  eexists _, _.
  split; [apply (@forward_spec F SF f in_dim D nlayers hidden_dim dec
                   Hev Hbuilt s l t Hl Hsp Hlen)|].
  intros b pts Epts. exists (image_of f dec pts).
  split; [apply map_nth_error; exact Epts|].
  assert (Hpts : length pts = D * D).
  { rewrite Forall_forall in Hlen. apply Hlen.
    eapply nth_error_In. exact Epts. }
  assert (Hgrid : Forall (fun q => q < length (repeat (@None (F * F)) (length pts)))
                         (all_eval dec)).
  { rewrite repeat_length, Hpts, Ha. apply (@all_eval_in_grid D Hev HD). }
  assert (Hth : length (all_eval dec) = length (top_half_of f dec pts)).
  { unfold top_half_of, evaluated_points. rewrite !length_map. reflexivity. }
  set (d0 := decoded f (nth 0 pts [])).
  assert (Hval : forall k, k < length (all_eval dec) ->
             nth k (top_half_of f dec pts) d0
             = decoded f (nth (nth k (all_eval dec) 0) pts [])).
  { intros k Hk. unfold top_half_of, evaluated_points, d0.
    rewrite (map_nth (decoded f)).
    rewrite (map_nth (fun i => nth i pts [])). reflexivity. }
  intros p Hp. unfold image_of. split.
  - intros Hin.
    rewrite scattered_other
      by (rewrite Hb; apply (@all_eval_not_in_bottom_rev D Hev HD);
          rewrite <- Ha; exact Hin).
    apply (In_nth _ _ 0) in Hin. destruct Hin as (k & Hk & Ek).
    rewrite <- Ek at 1.
    rewrite (@scattered_at _ (all_eval dec) (top_half_of f dec pts) _ k d0).
    + rewrite (Hval k Hk), Ek. reflexivity.
    + rewrite Ha. apply (@NoDup_all_eval D Hev HD).
    + exact Hth.
    + exact Hgrid.
    + exact Hk.
  - intros Hnin.
    assert (Hin : In p (bottom_rev dec)).
    { assert (Hc : In p (all_eval_of D ++ bottom_rev_of D))
        by (apply (@cover_in_grid D Hev HD); exact Hp).
      apply in_app_or in Hc. destruct Hc as [Hc|Hc].
      - exfalso. apply Hnin. rewrite Ha. exact Hc.
      - rewrite Hb. exact Hc. }
    apply (In_nth _ _ 0) in Hin. destruct Hin as (i & Hi & Ei).
    assert (Hi' : i < half D * (D - 2))
      by (rewrite Hb, (@length_bottom_rev_of D Hev HD) in Hi; exact Hi).
    pose proof (@bottom_rev_from_top D Hev HD i Hi') as Hsum.
    pose proof (@top_below_center D Hev HD i Hi') as Htop.
    pose proof (@length_all_eval D HD) as Hall.
    rewrite <- Hb, <- Ht, Ei in Hsum. rewrite <- Ht in Htop.
    set (k0 := nth i (top dec) 0) in *.
    assert (Ek0 : D * D + D - p = k0) by lia.
    rewrite <- Ei at 1.
    rewrite (@scattered_at _ (bottom_rev dec) (mirrored_of f dec pts) _ i
               (times_1_m1
                  ((fun j => nth j (top_half_of f dec pts) (szero, szero)) 0))).
    + unfold mirrored_of.
      rewrite (map_nth times_1_m1).
      rewrite (map_nth (fun j => nth j (top_half_of f dec pts) (szero, szero))).
      fold k0. rewrite times_1_m1_conj.
      rewrite (nth_indep _ (szero, szero) d0) by (rewrite <- Hth, Ha; lia).
      rewrite Hval by (rewrite Ha; lia).
      rewrite Ha, (@nth_all_eval D HD k0) by lia.
      rewrite Ek0. reflexivity.
    + rewrite Hb. apply (@NoDup_bottom_rev D Hev HD).
    + unfold mirrored_of. rewrite !length_map, Ht, Hb.
      rewrite (@length_top_of D Hev HD), (@length_bottom_rev_of D Hev HD).
      reflexivity.
    + rewrite length_scattered, repeat_length, Hpts, Hb.
      apply (@bottom_rev_in_grid D Hev HD).
    + exact Hi.
Qed.

(** [forward] can be called again on the same lattice buffer and returns
    the same image: it reads the caller's buffer and writes only to the
    copy that the indexing made. *)
Theorem forward_twice_same_image
  {F : Type} {SF : Scalar F} (f : list F -> F * F)
  (in_dim D nlayers hidden_dim : nat) (dec : FTSliceDecoder)
  (s : store) (l : loc) (t : list (list (list F))) :
  Nat.even D = true ->
  FTSliceDecoder_init in_dim D nlayers hidden_dim = Ok dec ->
  nth_error s l = Some t ->
  spatial t ->
  Forall (fun pts => length pts = D * D) t ->
  exists img s1 s2,
    forward f dec l s = Ok (img, s1)
    /\ forward f dec l s1 = Ok (img, s2).
Proof.
  intros Hev Hbuilt Hl Hsp Hlen.
  assert (Hls : l < length s) by (apply nth_error_Some; congruence).
  eexists _, _, _.
  split; [apply (@forward_spec F SF f in_dim D nlayers hidden_dim dec
                   Hev Hbuilt s l t Hl Hsp Hlen)|].
  apply (@forward_spec F SF f in_dim D nlayers hidden_dim dec
           Hev Hbuilt _ l t); [|exact Hsp|exact Hlen].
  rewrite nth_error_update_nth_neq by lia.
  rewrite nth_error_app1 by exact Hls. exact Hl.
Qed.

Lemma forward_every_pixel_witness :
  exists dec img s',
    FTSliceDecoder_init 3 4 1 4 = Ok dec
    /\ forward sample_decoder dec 0 [[sample_lattice]] = Ok (img, s')
    /\ exists im, nth_error img 0 = Some im
                  /\ nth_error im 15 = Some (Some (11, 0)%Z).
Proof.
  destruct (@FTSliceDecoder_init_ok 3 4 1 4 ltac:(lia)) as (dec & E & _).
  destruct (@forward_every_pixel Z Z_Scalar sample_decoder
              3 4 1 4 dec [[sample_lattice]] 0 [sample_lattice])
    as (img & s' & Hf & Hpx).
  - reflexivity.
  - exact E.
  - reflexivity.
  - repeat constructor.
  - repeat constructor.
  - exists dec, img, s'. split; [exact E|]. split; [exact Hf|].
    destruct (Hpx 0 sample_lattice eq_refl) as (im & Him & Hp).
    exists im. split; [exact Him|].
    destruct (Hp 15 ltac:(lia)) as [_ Hmirror].
    rewrite Hmirror; [reflexivity|].
    vm_compute in E. injection E as <-. simpl. intuition lia.
Defined.

Lemma forward_twice_same_image_witness :
  exists dec img s1 s2,
    FTSliceDecoder_init 3 4 1 4 = Ok dec
    /\ forward sample_decoder dec 0 [[sample_lattice]] = Ok (img, s1)
    /\ forward sample_decoder dec 0 s1 = Ok (img, s2).
Proof.
  destruct (@FTSliceDecoder_init_ok 3 4 1 4 ltac:(lia)) as (dec & E & _).
  destruct (@forward_twice_same_image Z Z_Scalar sample_decoder
              3 4 1 4 dec [[sample_lattice]] 0 [sample_lattice])
    as (img & s1 & s2 & H1 & H2).
  - reflexivity.
  - exact E.
  - reflexivity.
  - repeat constructor.
  - repeat constructor.
  - exists dec, img, s1, s2. repeat split; assumption.
Defined.

(* ================================================================= *)
(** ** [forward_symmetric] *)

Lemma Forall_firstn_of {A} (P : A -> Prop) (n : nat) (l : list A) :
  Forall P l -> Forall P (firstn n l).
Proof.
  intros H. revert n. induction H as [|a l Ha _ IH]; intros [|n]; simpl;
    constructor; auto.
Qed.

Lemma combine_map_l_self {A B} (g : A -> B) (l : list A) :
  combine (map g l) l = map (fun a => (g a, a)) l.
Proof. induction l as [|a l IH]; simpl; [reflexivity|]. f_equal. exact IH. Qed.

Lemma skipn_repeat_of {A} (x : A) (n m : nat) :
  skipn n (repeat x m) = repeat x (m - n).
Proof.
  revert m; induction n as [|n IH]; intros [|m]; simpl; try reflexivity.
  apply IH.
Qed.

(** Assigning as many rows as the slice has. *)
Lemma set_slice_exact {A} (start stop : nat) (vals : list A)
      (a : list (option A)) :
  start <= stop -> stop <= length a -> length vals = stop - start ->
  set_slice start stop vals a
  = Ok (firstn start a ++ map Some vals ++ skipn stop a).
Proof.
  intros H1 H2 H3. unfold set_slice.
  rewrite !Nat.min_l by lia. rewrite H3, Nat.eqb_refl.
  replace (start + (stop - start)) with stop by lia. reflexivity.
Qed.

Section SymmetricFacts.

Context {F : Type} {SF : Scalar F}.
Variable f : list F -> F * F.
Variable c : nat.

(** [top_half] for one image *)
Definition sym_top_half (pts : list (list F)) : list (F * F) :=
  map (decoded f) (firstn (c + 1) pts).

Definition sym_image (pts : list (list F)) : list (option (F * F)) :=
  map Some (sym_top_half pts)
  ++ map Some (map (fun px => (smul (fst px) sone, smul (snd px) (sopp sone)))
                   (map (fun i => nth i (sym_top_half pts) (szero, szero))
                        (rev (seq 0 c)))).

(** The caller's points of one image after the call. *)
Definition sym_buffer (pts : list (list F)) : list (list F) :=
  map flipped (firstn (c + 1) pts) ++ skipn (c + 1) pts.

Lemma forward_symmetric_spec (s : store) (l : loc)
      (t : list (list (list F))) :
  nth_error s l = Some t ->
  spatial t ->
  Forall (fun pts => length pts = 2 * c + 1) t ->
  forward_symmetric f l c s
  = Ok (map sym_image t,
        update_nth l (map sym_buffer t)
          (update_nth (length s)
             (map (map flipped) (map (firstn (c + 1)) t))
             (s ++ [map (firstn (c + 1)) t]))).
Proof.
  intros Hl Hsp Hlen.
  assert (Hls : l < length s) by (apply nth_error_Some; congruence).
  unfold forward_symmetric, mbind, load, alloc, lift, write, mret.
  rewrite Hl.
  match goal with
  | |- context [decode f ?l' ?s'] =>
      rewrite (@decode_spec F SF f s' l' (map (firstn (c + 1)) t))
  end.
  2:{ rewrite nth_error_app2, Nat.sub_diag by lia. reflexivity. }
  2:{ unfold spatial in *. apply Forall_map.
      eapply Forall_impl; [|exact Hsp]. intros pts Hpts.
      apply Forall_firstn_of, Hpts. }
  rewrite nth_error_update_nth_eq by (rewrite length_app; simpl; lia).
  rewrite length_update_nth, length_app. cbn [length].
  destruct (Nat.ltb_spec l (length s + 1)); [|lia].
  (* the writes reach the caller's buffer *)
  rewrite !map_map. rewrite combine_map_l_self. rewrite !map_map.
  cbn [fst snd].
  (* image[..., 0:c+1, :] = top_half *)
  change (map (fun x : list (list F) => map (decoded f) (firstn (c + 1) x)) t)
    with (map sym_top_half t).
  rewrite zipM_map.
  rewrite (@mapM_total _ _ _
             (fun pts => map Some (sym_top_half pts) ++ repeat None c)).
  2:{ eapply Forall_impl; [|exact Hlen]. intros pts Hpts. cbv beta in *.
      assert (Hth : length (sym_top_half pts) = c + 1).
      { unfold sym_top_half. rewrite length_map, length_firstn. lia. }
      rewrite set_slice_exact;
        [|lia|rewrite repeat_length; lia|rewrite Nat.sub_0_r; exact Hth].
      cbn [firstn app]. rewrite skipn_repeat_of, Hpts. do 3 f_equal. lia. }
  (* top_half[..., arange(c-1,-1,-1), :] * [1, -1] *)
  rewrite mapM_map.
  rewrite (@mapM_total _ _ _
             (fun pts =>
                map (fun px => (smul (fst px) sone, smul (snd px) (sopp sone)))
                    (map (fun i => nth i (sym_top_half pts) (szero, szero))
                         (rev (seq 0 c))))).
  2:{ eapply Forall_impl; [|exact Hlen]. intros pts Hpts. cbv beta in *.
      rewrite (@gather_total _ (rev (seq 0 c)) (sym_top_half pts)
                 (szero, szero)); [reflexivity|].
      apply Forall_forall. intros i Hi. apply in_rev, in_seq in Hi.
      unfold sym_top_half. rewrite length_map, length_firstn. lia. }
  (* image[..., c+1:, :] = ... *)
  rewrite zipM_map.
  rewrite (@mapM_total _ _ _ sym_image); [reflexivity|].
  eapply Forall_impl; [|exact Hlen]. intros pts Hpts. cbv beta in *.
  assert (Hth : length (sym_top_half pts) = c + 1).
  { unfold sym_top_half. rewrite length_map, length_firstn. lia. }
  rewrite set_slice_exact.
  - unfold sym_image.
    rewrite firstn_app, length_map, Hth, Nat.sub_diag. cbn [firstn].
    rewrite app_nil_r.
    rewrite firstn_all2 by (rewrite length_map; lia).
    rewrite skipn_all. rewrite app_nil_r. reflexivity.
  - rewrite length_app, length_map, repeat_length. lia.
  - lia.
  - rewrite !length_map, length_rev, length_seq.
    rewrite length_app, length_map, repeat_length. lia.
Qed.

End SymmetricFacts.

(** [forward_symmetric] on a lattice of [2c+1] points per image returns an
    image of [2c+1] pixels in which pixel [2c - i] is [(real, -imag)] of
    pixel [i], for every [i < c]; the centre pixel [c] has no partner. *)
Theorem forward_symmetric_conjugate
  {F : Type} {SF : Scalar F} (f : list F -> F * F) (c : nat)
  (s : store) (l : loc) (t : list (list (list F))) :
  nth_error s l = Some t ->
  spatial t ->
  Forall (fun pts => length pts = 2 * c + 1) t ->
  exists img s',
    forward_symmetric f l c s = Ok (img, s')
    /\ length img = length t
    /\ forall b im, nth_error img b = Some im ->
         length im = 2 * c + 1
         /\ forall i, i < c ->
              exists re imv,
                nth_error im i = Some (Some (re, imv))
                /\ nth_error im (2 * c - i) = Some (Some (re, sopp imv)).
Proof.
  intros Hl Hsp Hlen.
  eexists _, _.
  split; [apply (@forward_symmetric_spec F SF f c s l t Hl Hsp Hlen)|].
  split; [apply length_map|].
  intros b im Him. rewrite nth_error_map in Him.
  destruct (nth_error t b) as [pts|] eqn:Epts; [|discriminate].
  injection Him as <-.
  assert (Hpts : length pts = 2 * c + 1).
  { rewrite Forall_forall in Hlen. apply Hlen.
    eapply nth_error_In. exact Epts. }
  assert (Hth : length (sym_top_half f c pts) = c + 1).
  { unfold sym_top_half. rewrite length_map, length_firstn. lia. }
  unfold sym_image. split.
  - rewrite length_app, !length_map, length_rev, length_seq. lia.
  - intros i Hi.
    set (d0 := (szero, szero) : F * F).
    exists (fst (nth i (sym_top_half f c pts) d0)),
           (snd (nth i (sym_top_half f c pts) d0)).
    split.
    + rewrite nth_error_app1 by (rewrite length_map; lia).
      rewrite nth_error_map.
      rewrite (nth_error_nth' _ d0) by lia.
      cbn [option_map]. rewrite <- surjective_pairing. reflexivity.
    + rewrite nth_error_app2 by (rewrite length_map; lia).
      rewrite length_map, Hth.
      replace (2 * c - i - (c + 1)) with (c - S i) by lia.
      rewrite !nth_error_map.
      rewrite (nth_error_nth' _ 0)
        by (rewrite length_rev, length_seq; lia).
      rewrite rev_nth by (rewrite length_seq; lia).
      rewrite length_seq.
      replace (c - S (c - S i)) with i by lia.
      rewrite seq_nth by lia. cbn [option_map plus].
      rewrite smul_one, smul_minus_one. reflexivity.
Qed.

(** Unlike [forward], [forward_symmetric] hands [decode] a view of the
    caller's lattice: after the call the first [c+1] points of every image
    of the caller's buffer are stored negated where they had [z > 0], and
    the buffer differs from what it was as soon as one of them had. *)
Theorem forward_symmetric_mutates_caller_buffer
  {F : Type} {SF : Scalar F} (f : list F -> F * F) (c : nat)
  (s : store) (l : loc) (t : list (list (list F))) :
  nth_error s l = Some t ->
  spatial t ->
  Forall (fun pts => length pts = 2 * c + 1) t ->
  Exists (fun pts => Exists (fun p => zpos p = true) (firstn (c + 1) pts)) t ->
  exists img s' t',
    forward_symmetric f l c s = Ok (img, s')
    /\ nth_error s' l = Some t'
    /\ t' = map (fun pts =>
                   map (fun p => if zpos p then negate_xyz p else p)
                       (firstn (c + 1) pts)
                   ++ skipn (c + 1) pts) t
    /\ t' <> t.
Proof.
  intros Hl Hsp Hlen Hex.
  assert (Hls : l < length s) by (apply nth_error_Some; congruence).
  eexists _, _, _.
  split; [apply (@forward_symmetric_spec F SF f c s l t Hl Hsp Hlen)|].
  split.
  { apply nth_error_update_nth_eq.
    rewrite length_update_nth, length_app. lia. }
  split; [reflexivity|].
  intros E. apply map_fixed in E.
  apply Exists_exists in Hex. destruct Hex as (pts & Hpts & Hex).
  rewrite Forall_forall in E. specialize (E pts Hpts).
  unfold sym_buffer in E.
  rewrite <- (firstn_skipn (c + 1) pts) in E at 3.
  apply app_inv_tail in E. apply map_fixed in E.
  apply Exists_exists in Hex. destruct Hex as (p & Hp & Hz).
  rewrite Forall_forall in E. specialize (E p Hp).
  unfold flipped in E. rewrite Hz in E. exact (negate_xyz_moves Hz E).
Qed.

Lemma forward_symmetric_conjugate_witness :
  exists img s',
    forward_symmetric sample_decoder 0 2
      [[[[1; 2; 3]; [4; 5; -6]; [0; 0; 0]; [7; 8; 9]; [1; 1; -1]]]]%Z
    = Ok (img, s')
    /\ length img = 1.
Proof.
  destruct (@forward_symmetric_conjugate Z Z_Scalar sample_decoder 2
              [[[[1; 2; 3]; [4; 5; -6]; [0; 0; 0]; [7; 8; 9]; [1; 1; -1]]]]%Z
              0 [[[1; 2; 3]; [4; 5; -6]; [0; 0; 0]; [7; 8; 9]; [1; 1; -1]]]%Z)
    as (img & s' & Hf & Hn & _).
  - reflexivity.
  - repeat constructor.
  - repeat constructor.
  - exists img, s'. split; assumption.
Defined.

Lemma forward_symmetric_mutates_caller_buffer_witness :
  exists img s' t',
    forward_symmetric sample_decoder 0 1
      [[[[1; 2; 3]; [4; 5; -6]; [7; 8; 9]]]]%Z = Ok (img, s')
    /\ nth_error s' 0 = Some t'
    /\ t' = [[[-1; -2; -3]; [4; 5; -6]; [7; 8; 9]]]%Z.
Proof.
  destruct (@forward_symmetric_mutates_caller_buffer Z Z_Scalar
              sample_decoder 1
              [[[[1; 2; 3]; [4; 5; -6]; [7; 8; 9]]]]%Z
              0 [[[1; 2; 3]; [4; 5; -6]; [7; 8; 9]]]%Z)
    as (img & s' & t' & Hf & Hs & Ht & _).
  - reflexivity.
  - repeat constructor.
  - repeat constructor.
  - constructor. constructor. reflexivity.
  - exists img, s', t'. repeat split; assumption.
Defined.

(* ================================================================= *)
(** ** More on [translate] *)

Module TranslateMore.

Import Translate TranslateFacts.
Local Open Scope R_scope.

(** [real^2 + imag^2] *)
Definition norm2 (px : pair2) : R := fst px * fst px + snd px * snd px.

Definition opp_shift (a : pair2) : pair2 := (- fst a, - snd a).

Lemma shift_pixel_norm2 (tk px c : pair2) :
  norm2 (shift_pixel tk (px, c)) = norm2 px.
Proof.
  unfold norm2, shift_pixel. cbn [fst snd].
  pose proof (sin2_cos2 (tfilt c tk)) as H. unfold Rsqr in H.
  set (co := cos (tfilt c tk)) in *. set (si := sin (tfilt c tk)) in *.
  replace ((fst px * co - snd px * si) * (fst px * co - snd px * si)
           + (fst px * si + snd px * co) * (fst px * si + snd px * co))
    with ((fst px * fst px + snd px * snd px) * (si * si + co * co)) by ring.
  rewrite H. ring.
Qed.

Lemma shifted_norm2 (coords : list pair2) (tk : pair2) (im : list pair2) :
  length im = length coords ->
  Forall2 (fun px px' => norm2 px' = norm2 px) im (shifted coords tk im).
Proof.
  unfold shifted. revert coords.
  induction im as [|px im IH]; intros [|c coords] H; simpl in *;
    try discriminate; constructor.
  - apply shift_pixel_norm2.
  - apply IH. lia.
Qed.

(** A translation changes no modulus: every shifted image has, pixel by
    pixel, the same [real^2 + imag^2] as the image it comes from, and there
    is one shifted image per requested shift. *)
Theorem translate_preserves_modulus
  (coords : list pair2) (img : list (list pair2)) (t : list (list pair2)) :
  length img = length t ->
  Forall (fun im => length im = length coords) img ->
  exists out,
    translate coords img t = Ok out
    /\ length out = length img
    /\ forall b im tb row,
         nth_error img b = Some im -> nth_error t b = Some tb ->
         nth_error out b = Some row ->
         length row = length tb
         /\ Forall (Forall2 (fun px px' => norm2 px' = norm2 px) im) row.
Proof.
  intros Hb Hn. eexists.
  split; [apply (@translate_total coords img t Hb Hn)|].
  split; [rewrite length_map, length_combine; lia|].
  intros b im tb row Him Htb Hrow.
  rewrite nth_error_map in Hrow.
  assert (Hc : nth_error (combine img t) b = Some (im, tb)).
  { clear - Him Htb. revert t b Him Htb.
    induction img as [|x img IH]; intros [|y t] [|b] Him Htb;
      simpl in *; try discriminate.
    - injection Him as ->. injection Htb as ->. reflexivity.
    - apply IH; assumption. }
  rewrite Hc in Hrow. cbn [option_map fst snd] in Hrow.
  injection Hrow as <-.
  split; [apply length_map|].
  apply Forall_map. apply Forall_forall. intros tk _.
  apply shifted_norm2.
  rewrite Forall_forall in Hn. apply Hn. eapply nth_error_In. exact Him.
Qed.

Lemma add_opp_shifts (s : list pair2) :
  add_shifts s (map opp_shift s) = map (fun _ => (0, 0)) s.
Proof.
  unfold add_shifts. rewrite combine_map_self, map_map.
  apply map_ext. intros [x y]. unfold add_shift, opp_shift. cbn [fst snd].
  f_equal; ring.
Qed.

Lemma shifted_batch_zero (coords : list pair2) (img : list (list pair2))
      (s : list pair2) :
  length s = length img ->
  Forall (fun im => length im = length coords) img ->
  map (fun it => shifted coords (snd it) (fst it))
      (combine img (map (fun _ : pair2 => (0, 0)) s))
  = img.
Proof.
  revert s. induction img as [|im img IH]; intros [|a s] Hs Hn;
    simpl in *; try discriminate; [reflexivity|].
  inversion Hn as [|? ? Him Hrest]; subst.
  rewrite (@shifted_zero coords im Him). f_equal.
  apply IH; [lia|exact Hrest].
Qed.

(** Round trip: translating by [s] and then by [-s] gives the image back. *)
Theorem translate_back_and_forth
  (coords : list pair2) (img : list (list pair2)) (s : list pair2) :
  length s = length img ->
  Forall (fun im => length im = length coords) img ->
  (r1 <- translate coords img (one_shift_each s) ;;
   r2 <- translate coords (view_images r1)
                   (one_shift_each (map opp_shift s)) ;;
   Ok (view_images r2))
  = Ok img.
Proof.
  intros Hs Hn.
  assert (Hs' : length (map opp_shift s) = length img)
    by (rewrite length_map; exact Hs).
  rewrite (@translate_one_shift_each coords img s Hs Hn). cbn [rbind].
  unfold view_images. rewrite concat_map_singleton.
  rewrite translate_one_shift_each.
  - cbn [rbind]. f_equal.
    rewrite (@shifted_batch_twice coords img s (map opp_shift s) Hs Hs' Hn).
    rewrite add_opp_shifts, concat_map_singleton.
    apply shifted_batch_zero; assumption.
  - rewrite !length_map, length_combine. lia.
  - apply Forall_map. apply Forall_forall. intros [im a] Hin. cbn [fst snd].
    apply length_shifted. rewrite Forall_forall in Hn. apply Hn.
    eapply in_combine_l. exact Hin.
Qed.

(** Batch sizes that differ, neither being 1, are refused. *)
Theorem translate_batch_mismatch
  (coords : list pair2) (img : list (list pair2)) (t : list (list pair2)) :
  length img <> length t -> length img <> 1%nat -> length t <> 1%nat ->
  translate coords img t = Raise (RuntimeError "tensor sizes must match").
Proof.
  intros H H1 H2. unfold translate, broadcast.
  destruct (Nat.eqb_spec (length img) (length t)); [contradiction|].
  destruct img as [|a [|a' img]]; destruct t as [|b [|b' t]];
    simpl in *; try contradiction; reflexivity.
Qed.

(** Broadcasting: one image against [B] batches of shifts is shifted by
    every one of them. *)
Theorem translate_single_image
  (coords im : list pair2) (t : list (list pair2)) :
  length im = length coords ->
  translate coords [im] t
  = Ok (map (fun tb => map (fun tk => shifted coords tk im) tb) t).
Proof.
  intros Hn. unfold translate, broadcast. cbn [length].
  destruct (Nat.eqb_spec 1 (length t)) as [E|_].
  - destruct t as [|tb [|tb' t]]; simpl in E; try discriminate.
    cbn [combine rbind mapM fst snd map].
    rewrite (translate_one_total _ _ tb Hn). reflexivity.
  - cbn [rbind]. rewrite mapM_map. apply mapM_total.
    apply Forall_forall. intros tb _. cbn [fst snd].
    apply translate_one_total, Hn.
Qed.

Lemma translate_preserves_modulus_witness :
  exists out,
    translate [(1, 0); (0, 1)] [[(2, 3); (4, 5)]] [[(1, 2); (3, 4)]] = Ok out
    /\ length out = 1%nat.
Proof.
  destruct (@translate_preserves_modulus [(1, 0); (0, 1)] [[(2, 3); (4, 5)]]
              [[(1, 2); (3, 4)]]) as (out & Ho & Hl & _).
  - reflexivity.
  - repeat constructor.
  - exists out. split; assumption.
Defined.

Lemma translate_back_and_forth_witness :
  (r1 <- translate [(1, 0); (0, 1)] [[(2, 3); (4, 5)]]
                   (one_shift_each [(1, 2)]) ;;
   r2 <- translate [(1, 0); (0, 1)] (view_images r1)
                   (one_shift_each (map opp_shift [(1, 2)])) ;;
   Ok (view_images r2))
  = Ok [[(2, 3); (4, 5)]].
Proof.
  apply (@translate_back_and_forth [(1, 0); (0, 1)] [[(2, 3); (4, 5)]]
           [(1, 2)]).
  - reflexivity.
  - repeat constructor.
Defined.

Lemma translate_batch_mismatch_witness :
  translate [(1, 0)] [[(2, 3)]; [(4, 5)]] [[(1, 2)]; [(3, 4)]; [(5, 6)]]
  = Raise (RuntimeError "tensor sizes must match").
Proof.
  apply (@translate_batch_mismatch [(1, 0)] [[(2, 3)]; [(4, 5)]]
           [[(1, 2)]; [(3, 4)]; [(5, 6)]]); simpl; lia.
Defined.

Lemma translate_single_image_witness :
  translate [(1, 0)] [[(2, 3)]] [[(0, 0)]; [(0, 0)]]
  = Ok (map (fun tb => map (fun tk => shifted [(1, 0)] tk [(2, 3)]) tb)
            [[(0, 0)]; [(0, 0)]]).
Proof.
  apply (@translate_single_image [(1, 0)] [(2, 3)] [[(0, 0)]; [(0, 0)]]).
  reflexivity.
Defined.

End TranslateMore.

(* ================================================================= *)
(** ** The networks the constructors assemble *)

(** The width of the last axis after a stack of layers, for an input of
    width [d]: a [Linear] layer wants its input width, a [ResidLinear] layer
    adds its input to its output and wants both widths equal. *)
Fixpoint feed (d : nat) (layers : list layer) : option nat :=
  match layers with
  | [] => Some d
  | Linear nin nout :: rest =>
      if d =? nin then feed nout rest else None
  | ResidLinear nin nout :: rest =>
      if (d =? nin) && (nin =? nout) then feed nout rest else None
  | Activation :: rest => feed d rest
  end.

Lemma feed_app (d : nat) (l1 l2 : list layer) :
  feed d (l1 ++ l2) = match feed d l1 with
                      | Some d' => feed d' l2
                      | None => None
                      end.
Proof.
  revert d; induction l1 as [|[nin nout|nin nout|] l1 IH]; intros d; simpl;
    try reflexivity.
  - destruct (d =? nin); [apply IH|reflexivity].
  - destruct ((d =? nin) && (nin =? nout)); [apply IH|reflexivity].
  - apply IH.
Qed.

Lemma feed_hidden_resid (h n : nat) :
  feed h (concat (repeat [ResidLinear h h; Activation] n)) = Some h.
Proof.
  induction n as [|n IH]; simpl; [reflexivity|].
  rewrite Nat.eqb_refl. simpl. exact IH.
Qed.

Lemma feed_hidden_linear (h n : nat) :
  feed h (concat (repeat [Linear h h; Activation] n)) = Some h.
Proof.
  induction n as [|n IH]; simpl; [reflexivity|].
  rewrite Nat.eqb_refl. exact IH.
Qed.

Lemma ResidLinearMLP_feed (in_dim nlayers hidden_dim out_dim : nat) :
  feed in_dim (ResidLinearMLP in_dim nlayers hidden_dim out_dim) = Some out_dim.
Proof.
  unfold ResidLinearMLP. rewrite feed_app.
  assert (E1 : feed in_dim
                 [if in_dim =? hidden_dim
                  then ResidLinear in_dim hidden_dim
                  else Linear in_dim hidden_dim; Activation]
               = Some hidden_dim).
  { destruct (Nat.eqb_spec in_dim hidden_dim) as [->|_]; simpl;
      rewrite Nat.eqb_refl; reflexivity. }
  rewrite E1, feed_app, feed_hidden_resid.
  destruct (Nat.eqb_spec out_dim hidden_dim) as [->|_]; simpl;
    rewrite Nat.eqb_refl; reflexivity.
Qed.

Lemma MLP_feed (in_dim nlayers hidden_dim out_dim : nat) :
  feed in_dim (MLP in_dim nlayers hidden_dim out_dim) = Some out_dim.
Proof.
  unfold MLP. rewrite feed_app.
  assert (E1 : feed in_dim [Linear in_dim hidden_dim; Activation]
               = Some hidden_dim)
    by (simpl; rewrite Nat.eqb_refl; reflexivity).
  rewrite E1, feed_app, feed_hidden_linear.
  simpl. rewrite Nat.eqb_refl. reflexivity.
Qed.

(** Whatever the arguments, the layers of a [ResidLinearMLP] fit one
    another: an input of width [in_dim] passes through all [2*nlayers + 3]
    of them and comes out with width [out_dim].  In particular a residual
    layer is only ever built with equal input and output widths. *)
Theorem ResidLinearMLP_widths (in_dim nlayers hidden_dim out_dim : nat) :
  feed in_dim (ResidLinearMLP in_dim nlayers hidden_dim out_dim) = Some out_dim
  /\ length (ResidLinearMLP in_dim nlayers hidden_dim out_dim)
     = 2 * nlayers + 3.
Proof.
  split; [apply ResidLinearMLP_feed|].
  unfold ResidLinearMLP. rewrite !length_app. cbn [length].
  assert (E : forall n, length (concat (repeat [ResidLinear hidden_dim hidden_dim;
                                                Activation] n)) = 2 * n).
  { induction n as [|n IH]; simpl in *; lia. }
  rewrite E. lia.
Qed.

(* ================================================================= *)
(** ** When [HetOnlyVAE.__init__] returns *)

Definition known_mode (m : string) : Prop :=
  m = "conv"%string \/ m = "resid"%string \/ m = "mlp"%string
  \/ m = "tilt"%string.

(** An encoder mode other than the four known ones raises [RuntimeError]
    with a message that names the mode, whatever the other arguments. *)
Theorem HetOnlyVAE_unknown_mode
  (lattice : Lattice)
  (in_dim encode_layers encode_dim decode_layers decode_dim z_dim : nat)
  (encode_mode : string) :
  ~ known_mode encode_mode ->
  HetOnlyVAE_init lattice in_dim encode_layers encode_dim
                  decode_layers decode_dim z_dim encode_mode
  = Raise (RuntimeError
             ("Encoder mode " ++ encode_mode ++ " not recognized")).
Proof.
  intros Hm. unfold HetOnlyVAE_init, known_mode in *.
  destruct (String.eqb_spec encode_mode "conv"); [tauto|].
  destruct (String.eqb_spec encode_mode "resid"); [tauto|].
  destruct (String.eqb_spec encode_mode "mlp"); [tauto|].
  destruct (String.eqb_spec encode_mode "tilt"); [tauto|].
  reflexivity.
Qed.

Lemma HetOnlyVAE_unknown_mode_witness :
  HetOnlyVAE_init (mkLattice 64) 4096 3 16 3 16 1 "cnn"
  = Raise (RuntimeError "Encoder mode cnn not recognized").
Proof.
  apply (@HetOnlyVAE_unknown_mode (mkLattice 64) 4096 3 16 3 16 1 "cnn").
  unfold known_mode. intros [H|[H|[H|H]]]; discriminate.
Defined.

(** The constructor returns exactly in these cases: mode ['conv'] with
    [D = 64]; mode ['resid'] or ['mlp'] with [D > 0]; mode ['tilt'] with
    more than two encoder layers and [D > 0]. *)
Theorem HetOnlyVAE_init_returns_iff
  (lattice : Lattice)
  (in_dim encode_layers encode_dim decode_layers decode_dim z_dim : nat)
  (encode_mode : string) :
  (exists vae,
      HetOnlyVAE_init lattice in_dim encode_layers encode_dim
                      decode_layers decode_dim z_dim encode_mode = Ok vae)
  <-> (encode_mode = "conv"%string /\ lattice_D lattice = 64)
      \/ ((encode_mode = "resid"%string \/ encode_mode = "mlp"%string)
          /\ 0 < lattice_D lattice)
      \/ (encode_mode = "tilt"%string /\ 2 < encode_layers
          /\ 0 < lattice_D lattice).
Proof.
  assert (Hdec : forall D,
             (exists dec, FTSliceDecoder_init (3 + z_dim) D decode_layers
                                              decode_dim = Ok dec)
             <-> 0 < D).
  { intros D. split.
    - intros [dec E]. destruct D; [|lia].
      rewrite FTSliceDecoder_init_zero in E. discriminate.
    - intros HD.
      destruct (@FTSliceDecoder_init_ok (3 + z_dim) D decode_layers
                  decode_dim HD) as (dec & E & _).
      exists dec. exact E. }
  assert (Hrun : forall enc,
             (exists vae,
                 (dec <- FTSliceDecoder_init (3 + z_dim) (lattice_D lattice)
                                             decode_layers decode_dim ;;
                  Ok (mkHetOnlyVAE lattice in_dim z_dim enc encode_mode dec))
                 = Ok vae)
             <-> 0 < lattice_D lattice).
  { intros enc. rewrite <- Hdec. split.
    - intros [vae E].
      destruct (FTSliceDecoder_init _ _ _ _) as [dec|]; [|discriminate].
      exists dec. reflexivity.
    - intros [dec E]. rewrite E. eexists. reflexivity. }
  unfold HetOnlyVAE_init.
  destruct (String.eqb_spec encode_mode "conv") as [->|Hc].
  { unfold assert.
    destruct (Nat.eqb_spec (lattice_D lattice) 64) as [E64|N64]; cbn [rbind].
    - rewrite Hrun. split; [intros _; left; auto|intros _; lia].
    - split; [intros [vae E]; discriminate|].
      intros [[_ H]|[[[H|H] _]|[H _]]]; try discriminate. contradiction. }
  destruct (String.eqb_spec encode_mode "resid") as [->|Hr].
  { cbn [rbind]. rewrite Hrun. split; [intros H; right; left; auto|].
    intros [[H _]|[[_ H]|[H _]]]; try discriminate. exact H. }
  destruct (String.eqb_spec encode_mode "mlp") as [->|Hm].
  { cbn [rbind]. rewrite Hrun. split; [intros H; right; left; auto|].
    intros [[H _]|[[_ H]|[H _]]]; try discriminate. exact H. }
  destruct (String.eqb_spec encode_mode "tilt") as [->|Ht].
  { unfold TiltEncoder_init, assert.
    destruct (Nat.ltb_spec 2 encode_layers) as [Hl|Hl]; cbn [rbind].
    - rewrite Hrun. split; [intros H; right; right; auto|].
      intros [[H _]|[[[H|H] _]|[_ [_ H]]]]; try discriminate. exact H.
    - split; [intros [vae E]; discriminate|].
      intros [[H _]|[[[H|H] _]|[_ [H _]]]]; try discriminate. lia. }
  cbn [rbind]. split; [intros [vae E]; discriminate|].
  intros [[H _]|[[[H|H] _]|[H _]]]; contradiction.
Qed.

(** Whenever the constructor returns, the widths fit: the decoder takes
    [3 + z_dim] coordinates to 2 values, and the encoder ends with
    [2 * z_dim] values, the mean and the log-variance that [encode] cuts
    apart. *)
Theorem HetOnlyVAE_widths
  (lattice : Lattice)
  (in_dim encode_layers encode_dim decode_layers decode_dim z_dim : nat)
  (encode_mode : string) (vae : HetOnlyVAE) :
  HetOnlyVAE_init lattice in_dim encode_layers encode_dim
                  decode_layers decode_dim z_dim encode_mode = Ok vae ->
  feed (3 + z_dim) (decoder (vae_decoder vae)) = Some 2
  /\ match vae_encoder vae with
     | ConvEncoder _ out_dim => out_dim = z_dim * 2
     | ResidEncoder main | MLPEncoder main =>
         feed in_dim main = Some (z_dim * 2)
     | TiltEncoder encoder1 encoder2 _ =>
         feed in_dim encoder1 = Some encode_dim
         /\ feed (encode_dim * 2) encoder2 = Some (z_dim * 2)
     end.
Proof.
  unfold HetOnlyVAE_init. intros E.
  assert (Hfin : forall enc,
             (dec <- FTSliceDecoder_init (3 + z_dim) (lattice_D lattice)
                                         decode_layers decode_dim ;;
              Ok (mkHetOnlyVAE lattice in_dim z_dim enc encode_mode dec))
             = Ok vae ->
             vae_encoder vae = enc
             /\ feed (3 + z_dim) (decoder (vae_decoder vae)) = Some 2).
  { intros enc H. unfold FTSliceDecoder_init in H.
    destruct (Np.arange_step _ _ _); [|discriminate].
    cbn [rbind] in H. injection H as <-. cbn [vae_encoder vae_decoder decoder].
    split; [reflexivity|apply ResidLinearMLP_feed]. }
  destruct (String.eqb encode_mode "conv").
  { unfold assert in E. destruct (_ =? 64); [|discriminate].
    cbn [rbind] in E. destruct (Hfin _ E) as [-> Hd].
    split; [exact Hd|reflexivity]. }
  destruct (String.eqb encode_mode "resid").
  { cbn [rbind] in E. destruct (Hfin _ E) as [-> Hd].
    split; [exact Hd|apply ResidLinearMLP_feed]. }
  destruct (String.eqb encode_mode "mlp").
  { cbn [rbind] in E. destruct (Hfin _ E) as [-> Hd].
    split; [exact Hd|apply MLP_feed]. }
  destruct (String.eqb encode_mode "tilt"); [|discriminate].
  unfold TiltEncoder_init, assert in E.
  destruct (2 <? encode_layers); [|discriminate].
  cbn [rbind] in E. destruct (Hfin _ E) as [-> Hd].
  split; [exact Hd|]. split; apply ResidLinearMLP_feed.
Qed.

Lemma HetOnlyVAE_widths_witness :
  exists vae,
    HetOnlyVAE_init (mkLattice 4) 16 3 8 2 8 1 "tilt" = Ok vae
    /\ feed 4 (decoder (vae_decoder vae)) = Some 2.
Proof.
  assert (H : exists vae, HetOnlyVAE_init (mkLattice 4) 16 3 8 2 8 1 "tilt"
                          = Ok vae) by (eexists; reflexivity).
  destruct H as [vae E]. exists vae. split; [exact E|].
  apply (@HetOnlyVAE_widths (mkLattice 4) 16 3 8 2 8 1 "tilt" vae E).
Defined.

(* ================================================================= *)
(** ** The lattice of [VAE] and the index pairs *)

Lemma nth_flat_map_rows {A B C} (g : A -> B -> C) (xs : list B) (ys : list A)
      (r c : nat) (dA : A) (dB : B) (dC : C) :
  c < length xs -> r < length ys ->
  nth (r * length xs + c) (flat_map (fun y => map (g y) xs) ys) dC
  = g (nth r ys dA) (nth c xs dB).
Proof.
  revert r; induction ys as [|y ys IH]; intros r Hc Hr; simpl in *; [lia|].
  destruct r as [|r].
  - rewrite app_nth1 by (rewrite length_map; simpl; lia). simpl.
    rewrite (nth_indep _ dC (g y dB)) by (rewrite length_map; lia).
    apply (map_nth (g y)).
  - rewrite app_nth2 by (rewrite length_map; simpl; lia).
    rewrite length_map.
    replace (S r * length xs + c - length xs) with (r * length xs + c)
      by (simpl; lia).
    apply IH; lia.
Qed.

Module RealFacts.

Import RealModel.
Local Open Scope R_scope.

(** Entry [k] of [np.linspace(-1, 1, n, endpoint=False)] *)
Definition lin (n k : nat) : R := INR k * ((1 - -1) / INR n) + -1.

Lemma length_linspace_open (n : nat) : length (linspace_open n) = n.
Proof. unfold linspace_open. rewrite length_map, length_seq. reflexivity. Qed.

Lemma nth_linspace_open (n k : nat) :
  (k < n)%nat -> nth k (linspace_open n) 0 = lin n k.
Proof.
  intros Hk. unfold linspace_open.
  rewrite (nth_indep _ 0 (lin n 0))
    by (rewrite length_map, length_seq; exact Hk).
  unfold lin at 1.
  rewrite (map_nth (fun k => INR k * ((1 - -1) / INR n) + -1)).
  rewrite seq_nth by exact Hk. reflexivity.
Qed.

Lemma length_plane_lattice (nx ny : nat) :
  length (plane_lattice nx ny) = (ny * nx)%nat.
Proof.
  unfold plane_lattice.
  rewrite <- (length_linspace_open ny) at 2.
  induction (linspace_open ny) as [|y ys IH]; simpl; [reflexivity|].
  rewrite length_app, length_map, length_linspace_open, IH. reflexivity.
Qed.

Lemma nth_plane_lattice (nx ny r c : nat) :
  (c < nx)%nat -> (r < ny)%nat ->
  nth (r * nx + c) (plane_lattice nx ny) [] = [lin nx c; lin ny r; 0].
Proof.
  intros Hc Hr. unfold plane_lattice.
  rewrite <- (length_linspace_open nx) at 1.
  rewrite (@nth_flat_map_rows R R (list R) (fun x1 x0 => [x0; x1; 0])
             (linspace_open nx) (linspace_open ny) r c 0 0 [])
    by (rewrite length_linspace_open; assumption).
  rewrite !nth_linspace_open by assumption. reflexivity.
Qed.

(** Every point of the lattice lies in the plane [z = 0]. *)
Lemma plane_lattice_z (nx ny : nat) :
  Forall (fun p => exists x y, p = [x; y; 0]) (plane_lattice nx ny).
Proof.
  unfold plane_lattice. apply Forall_forall. intros p Hp.
  apply in_flat_map in Hp. destruct Hp as (y & _ & Hp).
  apply in_map_iff in Hp. destruct Hp as (x & <- & _).
  exists x, y. reflexivity.
Qed.

Lemma lin_mirror (D i : nat) :
  (0 < D)%nat -> (i <= D)%nat -> lin D (D - i) = - lin D i.
Proof.
  intros HD Hi. unfold lin. rewrite minus_INR by exact Hi.
  assert (INR D <> 0) by (apply not_0_INR; lia). field. assumption.
Qed.

Lemma lin_half (D : nat) :
  Nat.even D = true -> (0 < D)%nat -> lin D (half D) = 0.
Proof.
  intros Hev HD. pose proof (D_twice Hev HD) as H2.
  unfold lin. rewrite H2 at 2. rewrite mult_INR. simpl (INR 2).
  assert (INR (half D) <> 0) by (apply not_0_INR; lia). field. assumption.
Qed.

Lemma VAE_init_fields
  (nx ny encode_layers encode_dim decode_layers decode_dim : nat)
  (encode_mode : string) (vae : VAE) :
  VAE_init nx ny encode_layers encode_dim decode_layers decode_dim encode_mode
  = Ok vae ->
  FTSliceDecoder_init 3 nx decode_layers decode_dim = Ok (VAE_decoder vae)
  /\ VAE_lattice vae = plane_lattice nx ny
  /\ (2 < encode_layers)%nat
  /\ (encode_mode = "conv" \/ encode_mode = "resid" \/ encode_mode = "mlp")%string.
Proof.
  unfold VAE_init, assert. intros E.
  destruct (Nat.ltb_spec 2 encode_layers) as [Hl|_]; [|discriminate].
  cbn [rbind] in E.
  assert (Hfin : forall enc,
             (dec <- FTSliceDecoder_init 3 nx decode_layers decode_dim ;;
              Ok (mkVAE nx ny (nx * ny) enc
                        (ResidLinearMLP encode_dim 1 encode_dim 7)
                        (ResidLinearMLP encode_dim 1 encode_dim 4)
                        dec (plane_lattice nx ny))) = Ok vae ->
             FTSliceDecoder_init 3 nx decode_layers decode_dim
             = Ok (VAE_decoder vae)
             /\ VAE_lattice vae = plane_lattice nx ny).
  { intros enc H.
    destruct (FTSliceDecoder_init 3 nx decode_layers decode_dim) as [dec|];
      [|discriminate].
    cbn [rbind] in H. injection H as <-. split; reflexivity. }
  destruct (String.eqb_spec encode_mode "conv") as [->|_].
  { cbn [rbind] in E. destruct (Hfin _ E). auto. }
  destruct (String.eqb_spec encode_mode "resid") as [->|_].
  { cbn [rbind] in E. destruct (Hfin _ E). auto 6. }
  destruct (String.eqb_spec encode_mode "mlp") as [->|_].
  { cbn [rbind] in E. destruct (Hfin _ E). auto 6. }
  discriminate.
Qed.

(** For a square image of even size [D], the lattice that [VAE.__init__]
    builds has [D * D] points in the plane [z = 0]; the pixel [center] of
    its decoder is the origin, and the pixels that the decoder pairs,
    [top[k]] and [bottom_rev[k]], sit at opposite wavevectors. *)
Theorem VAE_lattice_pairs_opposite
  (D encode_layers encode_dim decode_layers decode_dim : nat)
  (encode_mode : string) (vae : VAE) :
  Nat.even D = true ->
  VAE_init D D encode_layers encode_dim decode_layers decode_dim encode_mode
  = Ok vae ->
  length (VAE_lattice vae) = (D * D)%nat
  /\ nth (center (VAE_decoder vae)) (VAE_lattice vae) [] = [0; 0; 0]
  /\ forall k, (k < length (top (VAE_decoder vae)))%nat ->
       nth (nth k (bottom_rev (VAE_decoder vae)) 0%nat) (VAE_lattice vae) []
       = map Ropp (nth (nth k (top (VAE_decoder vae)) 0%nat)
                       (VAE_lattice vae) []).
Proof.
  intros Hev E.
  destruct (VAE_init_fields _ _ _ _ _ _ _ E) as (Hdec & Hlat & _ & _).
  destruct (@FTSliceDecoder_init_arrays 3 D decode_layers decode_dim
              (VAE_decoder vae) Hev Hdec) as (HD & Ht & Hb & _).
  destruct (@FTSliceDecoder_init_ok 3 D decode_layers decode_dim HD)
    as (dec' & E' & _ & _ & Hc & _).
  rewrite Hdec in E'. injection E' as <-.
  pose proof (D_twice Hev HD) as H2.
  rewrite Hlat, Hc, Ht, Hb. split; [apply length_plane_lattice|]. split.
  - rewrite nth_plane_lattice by lia. rewrite (lin_half Hev HD). reflexivity.
  - intros k Hk. rewrite (@length_top_of D Hev HD) in Hk.
    destruct (@top_bottom_rev_at D k Hev HD Hk)
      as (j & i & Hj & Hi & Et & Eb & _).
    rewrite Et, Eb, !nth_plane_lattice by lia.
    cbn [map]. rewrite !lin_mirror by lia. rewrite Ropp_0. reflexivity.
Qed.

Lemma VAE_lattice_pairs_opposite_witness :
  exists vae,
    VAE_init 4 4 3 8 2 8 "resid" = Ok vae
    /\ length (VAE_lattice vae) = 16%nat.
Proof.
  assert (H : exists vae, VAE_init 4 4 3 8 2 8 "resid" = Ok vae)
    by (eexists; reflexivity).
  destruct H as [vae E]. exists vae. split; [exact E|].
  apply (@VAE_lattice_pairs_opposite 4 3 8 2 8 "resid" vae eq_refl E).
Defined.

(** [VAE.__init__] returns exactly when there are more than two encoder
    layers, the mode is ['conv'], ['resid'] or ['mlp'], and [nx > 0].  With
    ['conv'] no image size is asked for, unlike [HetOnlyVAE.__init__]. *)
Theorem VAE_init_returns_iff
  (nx ny encode_layers encode_dim decode_layers decode_dim : nat)
  (encode_mode : string) :
  (exists vae,
      VAE_init nx ny encode_layers encode_dim decode_layers decode_dim
               encode_mode = Ok vae)
  <-> (2 < encode_layers)%nat
      /\ (encode_mode = "conv" \/ encode_mode = "resid"
          \/ encode_mode = "mlp")%string
      /\ (0 < nx)%nat.
Proof.
  split.
  - intros [vae E].
    destruct (VAE_init_fields _ _ _ _ _ _ _ E) as (Hdec & _ & Hl & Hm).
    repeat split; try assumption.
    destruct nx; [|lia]. rewrite FTSliceDecoder_init_zero in Hdec.
    discriminate.
  - intros (Hl & Hm & Hnx).
    destruct (@FTSliceDecoder_init_ok 3 nx decode_layers decode_dim Hnx)
      as (dec & E & _).
    unfold VAE_init, assert.
    destruct (Nat.ltb_spec 2 encode_layers); [|lia]. cbn [rbind].
    destruct Hm as [-> | [-> | ->]]; cbn [String.eqb Ascii.eqb Bool.eqb rbind];
      rewrite E; cbn [rbind]; eexists; reflexivity.
Qed.


End RealFacts.

(* ================================================================= *)
(** ** [decode] on a lattice that needs no negation *)

Lemma update_nth_same {A} (i : nat) (x : A) (l : list A) :
  nth_error l i = Some x -> update_nth i x l = l.
Proof.
  revert i; induction l as [|y l IH]; intros [|i] H; simpl in *;
    try discriminate.
  - injection H as ->. reflexivity.
  - f_equal. apply IH, H.
Qed.

(** On a lattice without a point of [z > 0], as the central plane [z = 0]
    is, [decode] returns the network's values as they are and leaves the
    store as it found it. *)
Theorem decode_transparent_without_positive_z
  {F : Type} {SF : Scalar F} (f : list F -> F * F)
  (s : store) (l : loc) (t : list (list (list F))) :
  nth_error s l = Some t ->
  spatial t ->
  Forall (Forall (fun p => zpos p = false)) t ->
  decode f l s = Ok (map (map f) t, s).
Proof.
  intros Hl Hsp Hz.
  rewrite (@decode_spec F SF f s l t Hl Hsp).
  assert (Hfix : map (map flipped) t = t).
  { rewrite <- (map_id t) at 2. apply map_ext_in. intros row Hrow.
    rewrite <- (map_id row) at 2. apply map_ext_in. intros p Hp.
    rewrite Forall_forall in Hz. specialize (Hz row Hrow).
    rewrite Forall_forall in Hz. specialize (Hz p Hp).
    unfold flipped. rewrite Hz. reflexivity. }
  rewrite Hfix, (@update_nth_same _ l t s Hl). f_equal. f_equal.
  apply map_ext_in. intros row Hrow. apply map_ext_in. intros p Hp.
  rewrite Forall_forall in Hz. specialize (Hz row Hrow).
  rewrite Forall_forall in Hz. specialize (Hz p Hp).
  unfold decoded. rewrite Hz. reflexivity.
Qed.

Lemma decode_transparent_without_positive_z_witness :
  decode sample_decoder 0 [[[[1; 2; 0]; [4; 5; -6]]]]%Z
  = Ok (map (map sample_decoder) [[[1; 2; 0]; [4; 5; -6]]]%Z,
        [[[[1; 2; 0]; [4; 5; -6]]]]%Z).
Proof.
  apply (@decode_transparent_without_positive_z Z Z_Scalar sample_decoder
           [[[[1; 2; 0]; [4; 5; -6]]]]%Z 0 [[[1; 2; 0]; [4; 5; -6]]]%Z).
  - reflexivity.
  - repeat constructor.
  - repeat constructor.
Defined.

(* ================================================================= *)
(** ** [cat_z] with one latent value per image *)

Lemma firstn_app_exact {A} (x y : list A) (k : nat) :
  length x = k -> firstn k (x ++ y) = x.
Proof.
  intros <-. rewrite firstn_app, Nat.sub_diag, firstn_all. simpl.
  apply app_nil_r.
Qed.

Lemma skipn_app_exact {A} (x y : list A) (k : nat) :
  length x = k -> skipn k (x ++ y) = y.
Proof.
  intros <-. rewrite skipn_app, Nat.sub_diag, skipn_all. reflexivity.
Qed.

Lemma chunks_concat {A} (k : nat) (l : list (list A)) :
  Forall (fun x => length x = k) l ->
  Torch.chunks (length l) k (concat l) = l.
Proof.
  induction 1 as [|x l Hx _ IH]; simpl; [reflexivity|].
  rewrite (firstn_app_exact _ _ Hx), (skipn_app_exact _ _ Hx), IH.
  reflexivity.
Qed.

Lemma concat_singletons {A} (l : list A) : concat (map (fun v => [v]) l) = l.
Proof. induction l as [|a l IH]; simpl; [reflexivity|]. f_equal. exact IH. Qed.

Lemma chunks_singletons {A} (l : list A) :
  Torch.chunks (length l) 1 l = map (fun v => [v]) l.
Proof.
  rewrite <- (concat_singletons l) at 2.
  rewrite <- (length_map (fun v => [v]) l) at 1.
  apply chunks_concat. apply Forall_map. apply Forall_forall.
  intros v _. reflexivity.
Qed.

Lemma concat_repeat_single {A} (z : A) (n : nat) :
  concat (repeat [z] n) = repeat z n.
Proof. induction n as [|n IH]; simpl; [reflexivity|]. f_equal. exact IH. Qed.

Lemma expand_scalar_row {A} (N : nat) (z : A) :
  Torch.expand_data [1; 1] [N; 1] [z] = Ok (repeat z N).
Proof.
  cbn. destruct N as [|[|N]]; try reflexivity.
  rewrite concat_repeat_single. reflexivity.
Qed.

Lemma combine_app_eq {A B} (l1 l2 : list A) (m1 m2 : list B) :
  length l1 = length m1 ->
  combine (l1 ++ l2) (m1 ++ m2) = combine l1 m1 ++ combine l2 m2.
Proof.
  revert m1; induction l1 as [|a l1 IH]; intros [|b m1] H; simpl in *;
    try discriminate; [reflexivity|].
  f_equal. apply IH. lia.
Qed.

Lemma append_to_each {A} (z : A) (b : list (list A)) :
  map (fun xy => fst xy ++ snd xy)
      (combine b (map (fun v => [v]) (repeat z (length b))))
  = map (fun p => p ++ [z]) b.
Proof. induction b as [|p b IH]; simpl; [reflexivity|]. f_equal. exact IH. Qed.

Lemma interleave_latent {A} (N : nat) (batches : list (list (list A)))
      (zs : list A) :
  Forall (fun b => length b = N) batches ->
  length zs = length batches ->
  map (fun xy => fst xy ++ snd xy)
      (combine (concat batches)
               (map (fun v => [v]) (concat (map (fun z => repeat z N) zs))))
  = concat (map (fun bz => map (fun p => p ++ [snd bz]) (fst bz))
                (combine batches zs)).
Proof.
  intros Hb. revert zs.
  induction Hb as [|b bs Hlen _ IH]; intros [|z zs] Hz; simpl in *;
    try discriminate; [reflexivity|].
  rewrite map_app, combine_app_eq, map_app
    by (rewrite length_map, repeat_length; exact Hlen).
  rewrite <- Hlen at 1. rewrite append_to_each. f_equal.
  apply IH. lia.
Qed.

Lemma concat_concat_map {A B} (g : A -> list (list B)) (l : list A) :
  concat (concat (map g l)) = concat (map (fun x => concat (g x)) l).
Proof.
  induction l as [|x l IH]; simpl; [reflexivity|].
  rewrite concat_app, IH. reflexivity.
Qed.

Lemma concat_map_concat {A} (l : list (list (list A))) :
  concat (map (@concat A) l) = concat (concat l).
Proof.
  induction l as [|x l IH]; simpl; [reflexivity|].
  rewrite concat_app, IH. reflexivity.
Qed.

Lemma length_concat_uniform {A} (N : nat) (l : list (list A)) :
  Forall (fun b => length b = N) l -> length (concat l) = length l * N.
Proof.
  induction 1 as [|b l Hb _ IH]; simpl; [reflexivity|].
  rewrite length_app, Hb, IH. reflexivity.
Qed.

(** With [z_dim = 1], [cat_z] returns for coordinates of shape
    [B x N x 3] and a latent batch of shape [B x 1]: the result has shape
    [B x N x 4], and every point of image [b] is followed by the latent
    value of image [b]. *)
Theorem cat_z_appends_latent_value
  {A : Type} (N : nat) (batches : list (list (list A))) (zs : list A) :
  Forall (fun b => length b = N /\ Forall (fun p => length p = 3) b) batches ->
  length zs = length batches ->
  cat_z (mkTensor [length batches; N; 3] (concat (map (@concat A) batches)))
        (mkTensor [length batches; 1] zs)
  = Ok (mkTensor [length batches; N; 4]
          (concat (map (fun bz => concat (map (fun p => p ++ [snd bz])
                                              (fst bz)))
                       (combine batches zs)))).
Proof.
  intros Hb Hz.
  assert (HbN : Forall (fun b => length b = N) batches)
    by (eapply Forall_impl; [|exact Hb]; intros b [H _]; exact H).
  assert (Hb3 : Forall (fun p => length p = 3) (concat batches)).
  { apply Forall_concat. eapply Forall_impl; [|exact Hb].
    intros b [_ H]. exact H. }
  set (B := length batches) in *.
  unfold cat_z, Torch.last_dim, Torch.size0, Torch.view, Torch.ndimension,
    assert.
  cbn [shape data rev app rbind Nat.eqb length Nat.sub repeat].
  change (Torch.numel [B; 1; 1]) with (Torch.numel (B :: repeat 1 2)).
  rewrite numel_ones, Hz, Nat.eqb_refl. cbn [rbind].
  unfold Torch.expand.
  cbn [shape data removelast app length Nat.ltb Nat.leb Nat.sub repeat].
  cbn [Torch.expand_data]. change (Torch.numel [1; 1]) with 1.
  rewrite <- Hz at 1. rewrite chunks_singletons, mapM_map.
  rewrite (@mapM_total _ _ _ (fun z => repeat z N))
    by (apply Forall_forall; intros z _; apply expand_scalar_row).
  cbn [rbind]. rewrite Nat.eqb_refl. cbn [rbind].
  unfold Torch.cat_last. cbn [shape data rev app Torch.list_eqb].
  rewrite !Nat.eqb_refl. cbn [andb rev app].
  f_equal. f_equal.
  assert (Hn : Torch.numel [N; B] = length (concat batches)).
  { rewrite (@length_concat_uniform _ N batches HbN). unfold Torch.numel. fold B.
    simpl. lia. }
  assert (Hx : length (concat (map (fun z => repeat z N) zs))
               = length (concat batches)).
  { rewrite (@length_concat_uniform _ N (map (fun z => repeat z N) zs))
      by (apply Forall_map, Forall_forall; intros z _; apply repeat_length).
    rewrite length_map, Hz. symmetry. apply (@length_concat_uniform _ N batches HbN). }
  rewrite concat_map_concat.
  rewrite Hn at 1. rewrite (@chunks_concat _ 3 (concat batches) Hb3).
  rewrite Hn, <- Hx, chunks_singletons.
  rewrite (@interleave_latent _ N batches zs HbN Hz).
  apply concat_concat_map.
Qed.

Lemma cat_z_appends_latent_value_witness :
  cat_z (mkTensor [2; 2; 3] [1; 2; 3; 4; 5; 6; 7; 8; 9; 10; 11; 12]%Z)
        (mkTensor [2; 1] [100; 200]%Z)
  = Ok (mkTensor [2; 2; 4]
          [1; 2; 3; 100; 4; 5; 6; 100; 7; 8; 9; 200; 10; 11; 12; 200]%Z).
Proof.
  apply (@cat_z_appends_latent_value Z 2
           [[[1; 2; 3]; [4; 5; 6]]; [[7; 8; 9]; [10; 11; 12]]]%Z
           [100; 200]%Z).
  - repeat constructor.
  - reflexivity.
Defined.

(** Whenever [cat_z] returns, whatever the shapes it was given, the last
    axis of the result has size 4: three coordinates and one latent
    value. *)
Theorem cat_z_returns_width_4 {A : Type} (coords z out : tensor A) :
  cat_z coords z = Ok out -> Torch.last_dim out = Ok 4.
Proof. apply cat_z_trailing_dim. Qed.

Lemma cat_z_returns_width_4_witness :
  Torch.last_dim (mkTensor [1; 2; 4] [1; 2; 3; 9; 4; 5; 6; 9]%Z) = Ok 4.
Proof.
  apply (@cat_z_returns_width_4 Z (mkTensor [1; 2; 3] [1; 2; 3; 4; 5; 6]%Z)
           (mkTensor [1; 1] [9]%Z)).
  reflexivity.
Defined.

(** Coordinates whose last axis is not of size 3 are refused by the
    assertion, whatever the latent batch. *)
Theorem cat_z_asserts_three {A : Type} (coords z : tensor A) (d : nat) :
  Torch.last_dim coords = Ok d -> d <> 3 ->
  cat_z coords z = Raise (AssertionError "").
Proof.
  intros Hd Hne. unfold cat_z, assert. rewrite Hd. cbn [rbind].
  destruct (Nat.eqb_spec d 3); [contradiction|]. reflexivity.
Qed.

Lemma cat_z_asserts_three_witness :
  cat_z (mkTensor [1; 4] [1; 2; 3; 4]%Z) (mkTensor [1; 1] [9]%Z)
  = Raise (AssertionError "").
Proof.
  apply (@cat_z_asserts_three Z (mkTensor [1; 4] [1; 2; 3; 4]%Z)
           (mkTensor [1; 1] [9]%Z) 4); [reflexivity|lia].
Defined.

(** A latent batch of another size than the coordinate batch, and not of
    size 1, is refused by [expand]. *)
Theorem cat_z_batch_mismatch
  {A : Type} (B B' N : nat) (cdata zs : list A) :
  length zs = B -> B <> B' -> B <> 1 ->
  cat_z (mkTensor [B'; N; 3] cdata) (mkTensor [B; 1] zs)
  = Raise (RuntimeError "expanded size must match existing size").
Proof.
  intros Hz HB H1.
  unfold cat_z, Torch.last_dim, Torch.size0, Torch.view, Torch.ndimension,
    assert.
  cbn [shape data rev app rbind Nat.eqb length Nat.sub repeat].
  change (Torch.numel [B; 1; 1]) with (Torch.numel (B :: repeat 1 2)).
  rewrite numel_ones, Hz, Nat.eqb_refl. cbn [rbind].
  unfold Torch.expand.
  cbn [shape data removelast app length Nat.ltb Nat.leb Nat.sub repeat].
  cbn [Torch.expand_data]. change (Torch.numel [1; 1]) with 1.
  rewrite <- Hz at 1. rewrite chunks_singletons, mapM_map.
  rewrite (@mapM_total _ _ _ (fun z => repeat z N))
    by (apply Forall_forall; intros z _; apply expand_scalar_row).
  cbn [rbind].
  destruct (Nat.eqb_spec B B'); [contradiction|].
  destruct (Nat.eqb_spec B 1); [contradiction|]. reflexivity.
Qed.

Lemma cat_z_batch_mismatch_witness :
  cat_z (mkTensor [3; 1; 3] [1; 2; 3; 4; 5; 6; 7; 8; 9]%Z)
        (mkTensor [2; 1] [10; 20]%Z)
  = Raise (RuntimeError "expanded size must match existing size").
Proof.
  apply (@cat_z_batch_mismatch Z 2 3 1 [1; 2; 3; 4; 5; 6; 7; 8; 9]%Z
           [10; 20]%Z); [reflexivity|lia|lia].
Defined.

(* ================================================================= *)
(** ** [ConvEncoder.forward] looks at the entries only *)

(** [ConvEncoder.forward] raises, before the convolutions are reached, when
    the number of entries of its input is not a multiple of [64 * 64]; and
    two inputs with the same entries give the same result whatever their
    shapes, so that, say, four 32x32 images are taken for one 64x64
    image. *)
Theorem ConvEncoder_forward_shape_blind
  {A : Type} (main : tensor A -> result (tensor A)) (x : tensor A) :
  (length (data x) mod 4096 <> 0 ->
   ConvEncoder_forward main x
   = Raise (RuntimeError "shape is invalid for input size"))
  /\ (forall x', data x' = data x ->
        ConvEncoder_forward main x' = ConvEncoder_forward main x)
  /\ (length (data x) mod 4096 = 0 ->
      ConvEncoder_forward main x
      = (y <- main (mkTensor [length (data x) / 4096; 1; 64; 64] (data x)) ;;
         n <- Torch.size0 y ;;
         view_infer_last y n)).
Proof.
  assert (E4096 : Torch.numel [1; 64; 64] = 4096) by (vm_compute; reflexivity).
  unfold ConvEncoder_forward, view_infer_first. rewrite E4096.
  change (4096 =? 0) with false. cbv iota.
  split; [|split].
  - intros H. destruct (Nat.eqb_spec (length (data x) mod 4096) 0);
      [contradiction|reflexivity].
  - intros x' ->. reflexivity.
  - intros H. rewrite H. reflexivity.
Qed.

(* ================================================================= *)
(** ** [forward] on a lattice of another size than [D * D] *)

Section ForwardOtherSizes.

Context {F : Type} {SF : Scalar F}.
Variable f : list F -> F * F.
Variables (in_dim D nlayers hidden_dim : nat) (dec : FTSliceDecoder).
Hypothesis D_even : Nat.even D = true.
Hypothesis built : FTSliceDecoder_init in_dim D nlayers hidden_dim = Ok dec.

Lemma evaluated_points_spatial_within (t : list (list (list F))) :
  spatial t ->
  Forall (fun pts => Forall (fun i => i < length pts) (all_eval dec)) t ->
  spatial (map (evaluated_points dec) t).
Proof.
  intros Hsp Hin. unfold spatial in *. apply Forall_map.
  apply Forall_forall. intros pts Hpts.
  rewrite Forall_forall in Hsp, Hin.
  specialize (Hsp pts Hpts). specialize (Hin pts Hpts).
  unfold evaluated_points. apply Forall_map.
  eapply Forall_impl; [|exact Hin].
  intros i Hi. cbv beta in *. rewrite Forall_forall in Hsp.
  apply Hsp. apply nth_In. exact Hi.
Qed.

(** The steps of [forward] up to the last assignment, for a lattice that
    holds every pixel of [all_eval]. *)
Ltac forward_prefix t Hl Hsp Hin HD Ht Ha :=
  unfold forward, mbind, load, lift, alloc, mret; rewrite Hl;
  rewrite (@mapM_total _ _ (gather (all_eval dec)) (evaluated_points dec))
    by (eapply Forall_impl; [|exact Hin]; intros pts Hpts; cbv beta in *;
        apply gather_total; exact Hpts);
  match goal with
  | |- context [decode f ?l' ?s'] =>
      rewrite (@decode_spec F SF f s' l' (map (evaluated_points dec) t))
        by first [ rewrite nth_error_app2, Nat.sub_diag by lia; reflexivity
                 | apply evaluated_points_spatial_within; assumption ]
  end;
  rewrite map_map;
  change (map (fun x => map (decoded f) (evaluated_points dec x)) t)
    with (map (top_half_of f dec) t);
  rewrite zipM_map;
  rewrite (@mapM_total _ _ _
             (fun pts => scattered (all_eval dec) (top_half_of f dec pts)
                           (repeat None (length pts))))
    by (eapply Forall_impl; [|exact Hin]; intros pts Hpts; cbv beta in *;
        apply scatter_total;
        [ unfold top_half_of, evaluated_points; rewrite !length_map;
          reflexivity
        | rewrite repeat_length; exact Hpts ]);
  rewrite mapM_map;
  rewrite (@mapM_total _ _ _ (mirrored_of f dec))
    by (apply Forall_forall; intros pts _; cbv beta; unfold pixel;
        rewrite (@gather_total _ (top dec) (top_half_of f dec pts)
                   (szero, szero)); [reflexivity|];
        apply Forall_nth; intros k d Hk;
        rewrite Ht, (@length_top_of D D_even HD) in Hk;
        rewrite (nth_indep _ d 0)
          by (rewrite Ht, (@length_top_of D D_even HD); exact Hk);
        unfold top_half_of, evaluated_points; rewrite !length_map, Ha, Ht;
        pose proof (@top_below_center D D_even HD k Hk);
        pose proof (@length_all_eval D HD); lia);
  rewrite zipM_map.

(** [forward] on a lattice that holds every pixel of the grid, and maybe
    more. *)
Lemma forward_spec_within (s : store) (l : loc) (t : list (list (list F))) :
  nth_error s l = Some t ->
  spatial t ->
  Forall (fun pts => D * D <= length pts) t ->
  forward f dec l s
  = Ok (map (image_of f dec) t,
        update_nth (length s)
          (map (map flipped) (map (evaluated_points dec) t))
          (s ++ [map (evaluated_points dec) t])).
Proof.
  intros Hl Hsp Hlen.
  destruct (@FTSliceDecoder_init_arrays in_dim D nlayers hidden_dim dec
              D_even built) as (HD & Ht & Hb & Ha).
  assert (Hin : Forall (fun pts => Forall (fun i => i < length pts)
                                          (all_eval dec)) t).
  { eapply Forall_impl; [|exact Hlen]. intros pts Hpts. cbv beta in *.
    rewrite Ha. eapply Forall_impl; [|apply (@all_eval_in_grid D D_even HD)].
    intros i Hi. cbv beta in *. lia. }
  forward_prefix t Hl Hsp Hin HD Ht Ha.
  rewrite (@mapM_total _ _ _ (image_of f dec)); [reflexivity|].
  eapply Forall_impl; [|exact Hlen]. intros pts Hpts. cbv beta in *.
  apply scatter_total.
  - unfold mirrored_of. rewrite !length_map, Ht, Hb.
    rewrite (@length_top_of D D_even HD), (@length_bottom_rev_of D D_even HD).
    reflexivity.
  - rewrite length_scattered, repeat_length, Hb.
    eapply Forall_impl; [|apply (@bottom_rev_in_grid D D_even HD)].
    intros i Hi. cbv beta in *. lia.
Qed.

Lemma gather_cases {A} (idx : list nat) (a : list A) :
  (exists b, gather idx a = Ok b) \/ gather idx a = Raise IndexError.
Proof.
  apply mapM_cases. intros i.
  destruct (nth_error a i); [left; eexists|right]; reflexivity.
Qed.

Lemma gather_raises {A} (idx : list nat) (a : list A) :
  Exists (fun i => length a <= i) idx -> gather idx a = Raise IndexError.
Proof.
  intros Hex. apply mapM_raises.
  - intros i. destruct (nth_error a i); [left; eexists|right]; reflexivity.
  - eapply Exists_impl; [|exact Hex]. intros i Hi. cbv beta in *.
    apply nth_error_None in Hi. rewrite Hi. reflexivity.
Qed.

Lemma scatter_cases {A} (idx : list nat) (vals : list A)
      (a : list (option A)) :
  length idx = length vals ->
  (exists b, scatter idx vals a = Ok b) \/ scatter idx vals a = Raise IndexError.
Proof.
  revert vals a. induction idx as [|i idx IH]; intros [|v vals] a H;
    simpl in *; try discriminate.
  - left. eexists. reflexivity.
  - destruct (i <? length a); [|right; reflexivity]. apply IH. lia.
Qed.

Lemma scatter_raises {A} (idx : list nat) (vals : list A) :
  length idx = length vals ->
  forall a : list (option A),
  Exists (fun i => length a <= i) idx ->
  scatter idx vals a = Raise IndexError.
Proof.
  revert vals. induction idx as [|i idx IH]; intros [|v vals] H a Hex;
    simpl in *; try discriminate.
  - inversion Hex.
  - destruct (Nat.ltb_spec i (length a)) as [Hlt|_]; [|reflexivity].
    apply IH; [lia|].
    inversion Hex as [? ? Hi|? ? Hrest]; subst; [lia|].
    eapply Exists_impl; [|exact Hrest]. intros j Hj. cbv beta in *.
    rewrite length_update_nth. exact Hj.
Qed.

(** A lattice with more points than the grid has pixels is accepted: the
    image then has as many entries as the lattice has points, and the
    entries from [D * D] on are never written (they are what [torch.empty]
    left there). *)
Theorem forward_oversized_unwritten
  (s : store) (l : loc) (t : list (list (list F))) :
  nth_error s l = Some t ->
  spatial t ->
  Forall (fun pts => D * D <= length pts) t ->
  exists img s',
    forward f dec l s = Ok (img, s')
    /\ forall b pts, nth_error t b = Some pts ->
         exists im,
           nth_error img b = Some im
           /\ length im = length pts
           /\ forall p, D * D <= p -> p < length pts ->
                nth_error im p = Some None.
Proof.
  intros Hl Hsp Hlen.
  destruct (@FTSliceDecoder_init_arrays in_dim D nlayers hidden_dim dec
              D_even built) as (HD & Ht & Hb & Ha).
  eexists _, _. split; [apply (@forward_spec_within s l t Hl Hsp Hlen)|].
  intros b pts Epts. exists (image_of f dec pts).
  split; [apply map_nth_error; exact Epts|].
  unfold image_of.
  split; [rewrite !length_scattered, repeat_length; reflexivity|].
  intros p Hp1 Hp2.
  rewrite !scattered_other.
  - apply nth_error_repeat. exact Hp2.
  - rewrite Ha. intros Hin.
    pose proof (@all_eval_in_grid D D_even HD) as H.
    rewrite Forall_forall in H. specialize (H p Hin). cbv beta in H. lia.
  - rewrite Hb. intros Hin.
    pose proof (@bottom_rev_in_grid D D_even HD) as H.
    rewrite Forall_forall in H. specialize (H p Hin). cbv beta in H. lia.
Qed.

(** A lattice with fewer points than the grid has pixels is refused with
    [IndexError]: one of the two index arrays reaches past its end. *)
Theorem forward_undersized_raises
  (s : store) (l : loc) (t : list (list (list F))) (N : nat) :
  nth_error s l = Some t ->
  spatial t ->
  t <> [] ->
  Forall (fun pts => length pts = N) t ->
  N < D * D ->
  forward f dec l s = Raise IndexError.
Proof.
  intros Hl Hsp Hne Hlen HN.
  destruct (@FTSliceDecoder_init_arrays in_dim D nlayers hidden_dim dec
              D_even built) as (HD & Ht & Hb & Ha).
  assert (Hall : forall P : list (list F) -> Prop,
             (forall pts, length pts = N -> P pts) -> Exists P t).
  { intros P HP. destruct t as [|pts t']; [contradiction|].
    inversion Hlen; subst. left. apply HP. reflexivity. }
  destruct (Forall_Exists_dec (fun i => i < N)
              (fun i => lt_dec i N) (all_eval dec)) as [Hin|Hout].
  - (* the gather succeeds, the mirroring assignment does not *)
    assert (Hin' : Forall (fun pts => Forall (fun i => i < length pts)
                                             (all_eval dec)) t).
    { eapply Forall_impl; [|exact Hlen]. intros pts Hpts. cbv beta in *.
      rewrite Hpts. exact Hin. }
    forward_prefix t Hl Hsp Hin' HD Ht Ha.
    assert (Hmir : forall pts, length (bottom_rev dec)
                               = length (mirrored_of f dec pts)).
    { intros pts. unfold mirrored_of. rewrite !length_map, Ht, Hb.
      rewrite (@length_top_of D D_even HD),
        (@length_bottom_rev_of D D_even HD). reflexivity. }
    rewrite (@mapM_raises _ _ _ IndexError t); [reflexivity| |].
    + intros pts. apply scatter_cases. apply Hmir.
    + apply Hall. intros pts Hpts. apply scatter_raises; [apply Hmir|].
      rewrite length_scattered, repeat_length, Hpts.
      assert (Hlast : In (D * D - 1) (all_eval_of D ++ bottom_rev_of D))
        by (apply (@cover_in_grid D D_even HD); lia).
      apply in_app_or in Hlast. destruct Hlast as [Hlast|Hlast].
      * rewrite <- Ha in Hlast. rewrite Forall_forall in Hin.
        specialize (Hin _ Hlast). cbv beta in Hin. lia.
      * apply Exists_exists. exists (D * D - 1).
        split; [rewrite Hb; exact Hlast|lia].
  - (* the gather itself reaches past the end *)
    unfold forward, mbind, load, lift. rewrite Hl.
    match goal with
    | |- context [mapM ?g t] =>
        rewrite (@mapM_raises _ _ g IndexError t); [reflexivity| |]
    end.
    + intros pts. apply gather_cases.
    + apply Hall. intros pts Hpts. apply gather_raises.
      eapply Exists_impl; [|exact Hout]. intros i Hi. cbv beta in *.
      unfold point in *. lia.
Qed.

End ForwardOtherSizes.

Lemma forward_oversized_unwritten_witness :
  exists dec img s',
    FTSliceDecoder_init 3 2 1 4 = Ok dec
    /\ forward sample_decoder dec 0
         [[[[1; 2; 3]; [4; 5; -6]; [0; 0; 0]; [7; 8; 9]; [1; 1; 1]]]]%Z
       = Ok (img, s')
    /\ exists im, nth_error img 0 = Some im /\ nth_error im 4 = Some None.
Proof.
  destruct (@FTSliceDecoder_init_ok 3 2 1 4 ltac:(lia)) as (dec & E & _).
  destruct (@forward_oversized_unwritten Z Z_Scalar sample_decoder
              3 2 1 4 dec eq_refl E
              [[[[1; 2; 3]; [4; 5; -6]; [0; 0; 0]; [7; 8; 9]; [1; 1; 1]]]]%Z
              0 [[[1; 2; 3]; [4; 5; -6]; [0; 0; 0]; [7; 8; 9]; [1; 1; 1]]]%Z)
    as (img & s' & Hf & Hpx).
  - reflexivity.
  - repeat constructor.
  - repeat constructor.
  - exists dec, img, s'. split; [exact E|]. split; [exact Hf|].
    destruct (Hpx 0 _ eq_refl) as (im & Him & _ & Hp).
    exists im. split; [exact Him|]. apply Hp; simpl; lia.
Defined.

Lemma forward_undersized_raises_witness :
  exists dec,
    FTSliceDecoder_init 3 2 1 4 = Ok dec
    /\ forward sample_decoder dec 0 [[[[1; 2; 3]; [4; 5; -6]; [0; 0; 0]]]]%Z
       = Raise IndexError.
Proof.
  destruct (@FTSliceDecoder_init_ok 3 2 1 4 ltac:(lia)) as (dec & E & _).
  exists dec. split; [exact E|].
  apply (@forward_undersized_raises Z Z_Scalar sample_decoder
           3 2 1 4 dec eq_refl E
           [[[[1; 2; 3]; [4; 5; -6]; [0; 0; 0]]]]%Z
           0 [[[1; 2; 3]; [4; 5; -6]; [0; 0; 0]]]%Z 3).
  - reflexivity.
  - repeat constructor.
  - discriminate.
  - repeat constructor.
  - simpl. lia.
Defined.

(* ================================================================= *)
(** ** [sampleSO3] in training mode *)

Lemma list_eqb_refl (l : list nat) : Torch.list_eqb l l = true.
Proof.
  induction l as [|a l IH]; simpl; [reflexivity|].
  rewrite Nat.eqb_refl. exact IH.
Qed.

Lemma combine_map_first {A B C} (g : A -> C) (l : list A) (m : list B) :
  combine (map g l) m = map (fun ab => (g (fst ab), snd ab)) (combine l m).
Proof.
  revert m; induction l as [|a l IH]; intros [|b m]; simpl; try reflexivity.
  f_equal. apply IH.
Qed.

(** The tangent noise of [sampleSO3]: [eps * z_std] for the draws
    [noise]. *)
Definition tangent_noise {F : Type} {SF : Scalar F} (noise : nat -> F)
           (z_std : tensor F) : tensor F :=
  mkTensor (shape z_std)
    (map (fun kv => smul (noise (fst kv)) (snd kv))
         (combine (seq 0 (length (data z_std))) (data z_std))).

(** In training mode, when the two conversions return batches of 3x3
    matrices, [sampleSO3] returns a batch of 3x3 matrices, not the
    quaternion parameters, together with the tangent noise: the draws
    multiplied entry by entry with the standard deviations, in the shape of
    [z_std]. *)
Theorem sampleSO3_training_shapes
  {F : Type} {SF : Scalar F}
  (expmap quaternions_to_SO3 : tensor F -> result (tensor F))
  (noise : nat -> F) (z_mu z_std R E : tensor F) (B : nat) :
  quaternions_to_SO3 z_mu = Ok R ->
  shape R = [B; 3; 3] ->
  expmap (tangent_noise noise z_std) = Ok E ->
  shape E = [B; 3; 3] ->
  exists rot,
    sampleSO3 expmap quaternions_to_SO3 true noise z_mu z_std
    = Ok (rot, tangent_noise noise z_std)
    /\ shape rot = [B; 3; 3]
    /\ Torch.matmul R E = Ok rot.
Proof.
  intros HR HshR HE HshE.
  unfold sampleSO3, Torch.mul, Torch.randn_like. cbn [negb shape data].
  rewrite list_eqb_refl. cbn [rbind].
  rewrite combine_map_first, map_map. cbn [fst snd].
  change (mkTensor (shape z_std)
            (map (fun x : nat * F => smul (noise (fst x)) (snd x))
                 (combine (seq 0 (length (data z_std))) (data z_std))))
    with (tangent_noise noise z_std).
  rewrite HE. cbn [rbind]. rewrite HR. cbn [rbind].
  unfold Torch.matmul. rewrite HshR, HshE, !Nat.eqb_refl. cbn [andb rbind].
  eexists. split; [reflexivity|]. split; reflexivity.
Qed.

Lemma sampleSO3_training_shapes_witness :
  exists rot,
    sampleSO3 (fun _ => Ok (mkTensor [1; 3; 3] [1; 0; 0; 0; 1; 0; 0; 0; 1]%Z))
              sample_quaternions_to_SO3 true (fun _ => 2%Z)
              (mkTensor [1; 4] [1; 0; 0; 0]%Z) (mkTensor [1; 3] [1; 1; 1]%Z)
    = Ok (rot, mkTensor [1; 3] [2; 2; 2]%Z)
    /\ shape rot = [1; 3; 3].
Proof.
  destruct (@sampleSO3_training_shapes Z Z_Scalar
              (fun _ => Ok (mkTensor [1; 3; 3] [1; 0; 0; 0; 1; 0; 0; 0; 1]%Z))
              sample_quaternions_to_SO3 (fun _ => 2%Z)
              (mkTensor [1; 4] [1; 0; 0; 0]%Z) (mkTensor [1; 3] [1; 1; 1]%Z)
              (mkTensor [1; 3; 3] [1; 0; 0; 0; 1; 0; 0; 0; 1]%Z)
              (mkTensor [1; 3; 3] [1; 0; 0; 0; 1; 0; 0; 0; 1]%Z) 1)
    as (rot & Hs & Hsh & _); try reflexivity.
  exists rot. split; [exact Hs|exact Hsh].
Defined.
